(** * prepare_datasets: mask combination, dataset splitting, file copying

    A shallow embedding of [src/experiments/prepare_datasets.py].

    - Images are matrices of integers, a row-major [list (list Z)]; the
      [uint16] buffer of [combine_masks] stores values modulo [2^16].
    - Python exceptions are the constructors of [exn]; a computation that
      may raise returns a [res].
    - The operating system (os, shutil, cv2 file access) is an interface,
      the class [OS]; the program is written once against it.  [TreeFS] is
      an executable instance, a directory tree with ordered entries, on
      which the examples run.
    - Code with effects lives in the monad [M]: a file-system state, the
      log records emitted so far, and a result or a raised exception. *)

From Stdlib Require Import ZArith Ascii String.
From stdpp Require Import base tactics option list strings.

Local Open Scope Z_scope.

(** ** Exceptions and results *)

Inductive exn : Type :=
  | IndexError            (* sequence index out of range *)
  | UnboundLocalError     (* local variable read before assignment *)
  | SystemExit            (* raised by [exit()] *)
  | FileNotFoundError
  | NotADirectoryError
  | IsADirectoryError
  | FileExistsError
  | SameFileError         (* shutil *)
  | CvError.              (* cv2.error *)

Inductive res (A : Type) : Type :=
  | Ok (a : A)
  | Raise (e : exn).
Arguments Ok {A} a.
Arguments Raise {A} e.

#[global] Instance exn_eq_dec : EqDecision exn.
Proof. solve_decision. Defined.

#[global] Instance res_ret : MRet res := λ A a, Ok a.
#[global] Instance res_bind : MBind res := λ A B f m,
  match m with
  | Ok a => f a
  | Raise e => Raise e
  end.

(** ** Images *)

(** A single-channel image: [height] rows of [width] pixels. *)
Abbreviation image := (list (list Z)) (only parsing).

(** [img.shape] of a two-dimensional array. *)
Definition shape (img : image) : nat * nat :=
  (length img, length (hd [] img)).

(** numpy arrays are rectangular: every row has the width of the shape. *)
Definition rect (img : image) : Prop :=
  Forall (λ row, length row = (shape img).2) img.

(** [img[r, c]], and 0 outside the array. *)
Definition px (img : image) (r c : nat) : Z :=
  default 0 (img !! r ≫= (.!! c)).

(** The pixel [(r, c)] is foreground: it exists and [mask[r, c] > 0]. *)
Definition fg (mask : image) (r c : nat) : Prop := 0 < px mask r c.

#[global] Instance fg_dec mask r c : Decision (fg mask r c).
Proof. unfold fg. apply _. Defined.

(** [np.zeros((height, width), dtype=np.uint16)] *)
Definition zeros (height width : nat) : image :=
  replicate height (replicate width 0).

(** Storing a Python integer into a [uint16] array keeps its low 16 bits
    (the C cast of NumPy 1; NumPy 2 raises OverflowError for a value that
    does not fit, which the results below never store). *)
Definition to_uint16 (v : Z) : Z := v mod 65536.

(** [np.where(mask > 0)]: the coordinates of the positive pixels, row by
    row. *)
Definition row_where (r : nat) (row : list Z) : list (nat * nat) :=
  omap id (imap (λ c v, if bool_decide (0 < v) then Some (r, c) else None) row).

Definition np_where_gt0 (mask : image) : list (nat * nat) :=
  mjoin (imap row_where mask).

(** [img[r, c] = v] for one in-range coordinate. *)
Definition set_px (v : Z) (img : image) (rc : nat * nat) : image :=
  alter (<[rc.2 := v]>) rc.1 img.

(** [combined_mask[indices] = v]: numpy checks every index against the
    shape of the target and raises IndexError when one is out of bounds;
    otherwise every listed pixel is set. *)
Definition assign_at (height width : nat) (combined : image)
    (indices : list (nat * nat)) (v : Z) : res image :=
  if forallb (λ rc, (rc.1 <? height)%nat && (rc.2 <? width)%nat) indices
  then Ok (foldl (set_px (to_uint16 v)) combined indices)
  else Raise IndexError.

(** ** combine_masks *)

(** The body of [for mask in mask_images], with the loop state
    [(combined_mask, object_id)]. *)
Fixpoint combine_loop (height width : nat) (mask_images : list image)
    (combined_mask : image) (object_id : Z) : res image :=
  match mask_images with
  | [] => Ok combined_mask
  | mask :: rest =>
      combined_mask' ← assign_at height width combined_mask
                          (np_where_gt0 mask) object_id;
      combine_loop height width rest combined_mask' (object_id + 1)
  end.

(** [mask_images[0]] raises IndexError on the empty list. *)
Definition combine_masks (mask_images : list image) : res image :=
  match mask_images with
  | [] => Raise IndexError
  | first :: _ =>
      let '(height, width) := shape first in
      combine_loop height width mask_images (zeros height width) 1
  end.

(** ** Vocabulary of the statements about images *)

(** The coordinate [(r, c)] lies inside the array. *)
Definition inb (img : image) (r c : nat) : Prop :=
  is_Some (img !! r ≫= (.!! c)).

(** [img] has [h] rows, each [w] wide. *)
Definition dims (h w : nat) (img : image) : Prop :=
  length img = h ∧ Forall (λ row, length row = w) img.

(** The foreground of [mask] lies inside an [h] by [w] array. *)
Definition fits (h w : nat) (mask : image) : Prop :=
  ∀ r c, fg mask r c → (r < h)%nat ∧ (c < w)%nat.

(** The values other than 0 that occur in an image, each once. *)
Definition nonzero_values (img : image) : list Z :=
  remove_dups (filter (λ v, v ≠ 0) (mjoin img)).

(** The pixel [(r, c)] followed through the loop of [combine_masks]: every
    mask whose foreground covers it overwrites it with the identifier of
    that iteration. *)
Fixpoint label (masks : list image) (object_id : Z) (r c : nat) (cur : Z)
    : Z :=
  match masks with
  | [] => cur
  | mask :: rest =>
      label rest (object_id + 1) r c
        (if decide (fg mask r c) then to_uint16 object_id else cur)
  end.

(** ** Strings and paths *)

(** [s.startswith(pre)] *)
Fixpoint startswith (s pre : string) {struct pre} : bool :=
  match pre, s with
  | EmptyString, _ => true
  | String _ _, EmptyString => false
  | String a pre', String b s' => bool_decide (a = b) && startswith s' pre'
  end.

(** [pat in s] on strings: plain substring search. *)
Fixpoint contains (pat s : string) : bool :=
  startswith s pat ||
  match s with
  | EmptyString => false
  | String _ s' => contains pat s'
  end.

Definition endswith_sep (p : string) : bool :=
  match String.length p with
  | O => false
  | S n => bool_decide (String.get n p = Some "/"%char)
  end.

(** [os.path.join(a, b)] of posixpath. *)
Definition path_join (a b : string) : string :=
  if startswith b "/" then b
  else if bool_decide (a = "") || endswith_sep a then a +:+ b
  else a +:+ "/" +:+ b.

(** [os.path.join(a, b, c, d)] *)
Definition path_join4 (a b c d : string) : string :=
  path_join (path_join (path_join a b) c) d.

(** [os.path.basename(p)]: what follows the last separator. *)
Fixpoint basename (p : string) : string :=
  match p with
  | EmptyString => EmptyString
  | String c p' =>
      if contains "/" p' then basename p'
      else if bool_decide (c = "/"%char) then p'
      else p
  end.

(** ** Logging *)

Inductive level : Type := INFO | WARNING | ERROR.

Abbreviation log_record := (level * string)%type (only parsing).

#[global] Instance level_eq_dec : EqDecision level.
Proof. solve_decision. Defined.

(** ** The operating system interface

    What the program asks of [os], [shutil] and [cv2].  Reads leave the
    file system as it is; a write returns the new file system together with
    its result, also when it raises.  [cv2.imread] returns [None] instead of
    raising; [cv2.imwrite] returns a flag, which the program ignores. *)

Class OS (FS : Type) : Type := {
  os_path_exists : FS → string → bool;
  os_listdir : FS → string → res (list string);
  os_makedirs : FS → string → res () * FS;
  shutil_copy2 : FS → string → string → res () * FS;
  cv2_imread_grayscale : FS → string → option image;
  cv2_imwrite : FS → string → image → res bool * FS;
}.

(** ** The monad of the program *)

Record world (FS : Type) : Type := World {
  w_fs : FS;
  w_log : list log_record;
}.
Arguments World {FS} _ _.
Arguments w_fs {FS} _.
Arguments w_log {FS} _.

Definition M (FS A : Type) : Type := world FS → res A * world FS.

#[global] Instance M_ret {FS} : MRet (M FS) := λ A a w, (Ok a, w).
#[global] Instance M_bind {FS} : MBind (M FS) := λ A B f m w,
  match m w with
  | (Ok a, w') => f a w'
  | (Raise e, w') => (Raise e, w')
  end.

Definition raise {FS A} (e : exn) : M FS A := λ w, (Raise e, w).

(** A pure computation that may raise, run inside [M]. *)
Definition lift_res {FS A} (r : res A) : M FS A := λ w, (r, w).

Definition logging {FS} (lvl : level) (msg : string) : M FS () :=
  λ w, (Ok (), World (w_fs w) (w_log w ++ [(lvl, msg)])).

(** [for x in l: s = body(s, x)], the loop variables carried in [s]. *)
Fixpoint for_each {FS S A} (body : S → A → M FS S) (s : S) (l : list A)
    : M FS S :=
  match l with
  | [] => mret s
  | x :: l' => s' ← body s x; for_each body s' l'
  end.

(** [defaultdict(list)]: keys in insertion order. *)
Abbreviation dict := (list (string * list string)) (only parsing).

(** [data[k].append(v)] *)
Fixpoint dict_append (k v : string) (data : dict) : dict :=
  match data with
  | [] => [(k, [v])]
  | (k', vs) :: data' =>
      if decide (k = k') then (k', vs ++ [v]) :: data'
      else (k', vs) :: dict_append k v data'
  end.

(** The list stored under [k], empty for a key that was never appended
    to. *)
Fixpoint dict_get (k : string) (data : dict) : list string :=
  match data with
  | [] => []
  | (k', vs) :: data' => if decide (k = k') then vs else dict_get k data'
  end.

(** The bucket a directory name falls into. *)
Definition bucket (val_pattern test_pattern name : string) : string :=
  if contains val_pattern name then "valid"
  else if contains test_pattern name then "test" else "train".

Section Program.
Context {FS : Type} `{!OS FS}.

Definition path_exists (p : string) : M FS bool :=
  λ w, (Ok (os_path_exists (w_fs w) p), w).

Definition listdir (p : string) : M FS (list string) :=
  λ w, (os_listdir (w_fs w) p, w).

Definition makedirs (p : string) : M FS () :=
  λ w, let '(r, fs') := os_makedirs (w_fs w) p in (r, World fs' (w_log w)).

Definition copy2 (src dst : string) : M FS () :=
  λ w, let '(r, fs') := shutil_copy2 (w_fs w) src dst in
       (r, World fs' (w_log w)).

Definition imread_grayscale (p : string) : M FS (option image) :=
  λ w, (Ok (cv2_imread_grayscale (w_fs w) p), w).

Definition imwrite (p : string) (img : image) : M FS bool :=
  λ w, let '(r, fs') := cv2_imwrite (w_fs w) p img in
       (r, World fs' (w_log w)).

(** One iteration of [for filename in os.listdir(folder_path)]. *)
Definition load_step (folder_path : string) (images : list image)
    (filename : string) : M FS (list image) :=
  img ← imread_grayscale (path_join folder_path filename);
  match img with
  | Some i => mret (images ++ [i])
  | None =>
      logging WARNING ("Failed to read image: " +:+ filename);;
      mret images
  end.

Definition load_mask_images (folder_path : string) : M FS (list image) :=
  names ← listdir folder_path;
  for_each (load_step folder_path) [] names.

(** [copy2] of one file of the directory, with its log record. *)
Definition copy_file (corresponding_files_dir output_dir file : string)
    : M FS () :=
  copy2 (path_join corresponding_files_dir file) (path_join output_dir file);;
  logging INFO ("Copied corresponding file: " +:+ file).

(** One iteration of [for file in os.listdir(corresponding_files_dir)]. *)
Definition copy_step
    (corresponding_files_dir output_dir filename_base : string)
    (_ : ()) (file : string) : M FS () :=
  if startswith file filename_base then
    copy_file corresponding_files_dir output_dir file
  else mret ().

Definition copy_corresponding_files
    (corresponding_files_dir output_dir filename_base : string) : M FS () :=
  names ← listdir corresponding_files_dir;
  for_each (copy_step corresponding_files_dir output_dir filename_base)
    () names.

(** The same loop without the test: every listed file is copied. *)
Definition copy_files (corresponding_files_dir output_dir : string)
    (files : list string) : M FS () :=
  for_each (λ _, copy_file corresponding_files_dir output_dir) () files.

(** The calls [shutil.copy2(dir/file, output_dir/file)] for the listed
    files, made one after the other on the file system and ended by the
    first call that raises: the outcome, the file system reached, and the
    files whose call returned. *)
Fixpoint copy_all (corresponding_files_dir output_dir : string)
    (files : list string) (fs : FS) : res () * FS * list string :=
  match files with
  | [] => (Ok (), fs, [])
  | file :: rest =>
      match shutil_copy2 fs (path_join corresponding_files_dir file)
              (path_join output_dir file) with
      | (Ok _, fs') =>
          let '(r, fs'', copied) :=
            copy_all corresponding_files_dir output_dir rest fs' in
          (r, fs'', file :: copied)
      | (Raise e, fs') => (Raise e, fs', [])
      end
  end.

Definition create_directory (directory_path : string) : M FS () :=
  ex ← path_exists directory_path;
  if negb ex then
    makedirs directory_path;;
    logging INFO ("Created directory: " +:+ directory_path)
  else mret ().

Definition split_step (directory_path val_pattern test_pattern : string)
    (data : dict) (dirname : string) : dict :=
  if contains val_pattern dirname then
    dict_append "valid" (path_join directory_path dirname) data
  else if contains test_pattern dirname then
    dict_append "test" (path_join directory_path dirname) data
  else
    dict_append "train" (path_join directory_path dirname) data.

Definition split_data (directory_path val_pattern test_pattern : string)
    : M FS dict :=
  names ← listdir directory_path;
  mret (foldl (split_step directory_path val_pattern test_pattern) [] names).

(** The local variables of [process_masks] that outlive one iteration.
    [mask_images] is bound by the first class that is not skipped and
    keeps its value from then on, across samples; [all_masks] is reset for
    every sample and collects the rows of the class masks. *)
Record locals : Type := Locals {
  mask_images : option (list image);
  all_masks : list (list Z);
}.

Definition masks_filename (filename_base format : string) : string :=
  filename_base +:+ "_masks." +:+ format.

(** One iteration of [for class_name in os.listdir(dirpath)]. *)
Definition class_step
    (output_dir corresponding_files_dir format : string)
    (exclude_class : list string) (split_name filename_base dirpath : string)
    (l : locals) (class_name : string) : M FS locals :=
  if bool_decide (class_name ∈ exclude_class) then
    logging INFO ("Skipping " +:+ class_name +:+ "...");;
    mret l
  else
    images ← load_mask_images (path_join dirpath class_name);
    class_masks ← lift_res (combine_masks images);
    let l' := Locals (Some images) (all_masks l ++ class_masks) in
    let output_dir_class_split :=
      path_join4 output_dir format class_name split_name in
    create_directory output_dir_class_split;;
    let save_filepath :=
      path_join output_dir_class_split (masks_filename filename_base format) in
    imwrite save_filepath class_masks;;
    logging INFO ("Combined mask image saved as " +:+ save_filepath);;
    copy_corresponding_files corresponding_files_dir output_dir_class_split
      filename_base;;
    mret l'.

(** One iteration of [for dirpath in split_files]. *)
Definition sample_step
    (output_dir corresponding_files_dir format : string)
    (exclude_class : list string) (split_name : string)
    (bound : option (list image)) (dirpath : string)
    : M FS (option (list image)) :=
  let filename_base := basename dirpath in
  let all_masks_output_dir := path_join4 output_dir format "all" split_name in
  create_directory all_masks_output_dir;;
  logging INFO ("Processing " +:+ dirpath +:+ "...");;
  class_names ← listdir dirpath;
  l ← for_each (class_step output_dir corresponding_files_dir format
                  exclude_class split_name filename_base dirpath)
        (Locals bound []) class_names;
  match mask_images l with
  | None => raise UnboundLocalError
  | Some images =>
      combined_mask ← lift_res (combine_masks images);
      let save_filepath :=
        path_join all_masks_output_dir (masks_filename filename_base format) in
      imwrite save_filepath combined_mask;;
      logging INFO ("Combined mask image saved as " +:+ save_filepath);;
      copy_corresponding_files corresponding_files_dir all_masks_output_dir
        filename_base;;
      mret (Some images)
  end.

(** The two nested loops over [data.items()], from a given binding of
    [mask_images]. *)
Definition process_splits
    (output_dir corresponding_files_dir format : string)
    (exclude_class : list string) (bound : option (list image))
    (data : dict) : M FS (option (list image)) :=
  for_each (λ b '(split_name, split_files),
      for_each (sample_step output_dir corresponding_files_dir format
                  exclude_class split_name) b split_files)
    bound data.

Definition process_masks
    (input_path output_dir corresponding_files_dir
     val_pattern test_pattern format : string)
    (exclude_class : list string) : M FS () :=
  ex ← path_exists input_path;
  if negb ex then
    logging ERROR ("The input path " +:+ input_path +:+ " does not exist.")
  else
    data ← split_data input_path val_pattern test_pattern;
    process_splits output_dir corresponding_files_dir format exclude_class
      None data;;
    mret ().

(** The parsed command line, every option given. *)
Record args : Type := Args {
  input_path : string;
  output_dir : string;
  corresponding_files_dir : string;
  val_pattern : string;
  test_pattern : string;
  format : string;
}.

(** The default of [process_masks]'s [exclude_class]. *)
Definition default_exclude_class : list string := ["Unidentified"].

(** The [__main__] block after argument parsing.  [setup_logging] only
    configures how records are printed; [w_log] keeps every record. *)
Definition main (a : args) : M FS () :=
  ex ← path_exists (output_dir a);
  if ex : bool then
    logging ERROR ("The output path " +:+ output_dir a +:+ " already exists.");;
    raise SystemExit
  else
    process_masks (input_path a) (output_dir a) (corresponding_files_dir a)
      (val_pattern a) (test_pattern a) (format a) default_exclude_class.

End Program.

(** ** A file system to run the program on

    A directory tree whose directories keep their entries in enumeration
    order; a new entry goes last.  Paths are resolved from the root, which
    is also the working directory. *)

Module TreeFS.

(** What a file holds: an 8-bit or a 16-bit single-channel raster, or
    bytes that no image decoder accepts. *)
Inductive content : Type :=
  | Gray8 (img : image)
  | Gray16 (img : image)
  | Bytes (data : string).

#[warnings="-register-all"]
Inductive node : Type :=
  | File (c : content)
  | Dir (entries : list (string * node)).

Fixpoint assoc {A} (k : string) (l : list (string * A)) : option A :=
  match l with
  | [] => None
  | (k', a) :: l' => if decide (k = k') then Some a else assoc k l'
  end.

(** Replace the entry [k] by [f] of it, or add it at the end. *)
Fixpoint put_entry {A} (k : string) (f : option A → A)
    (l : list (string * A)) : list (string * A) :=
  match l with
  | [] => [(k, f None)]
  | (k', a) :: l' =>
      if decide (k = k') then (k', f (Some a)) :: l'
      else (k', a) :: put_entry k f l'
  end.

(** The node at a path given by its components. *)
Fixpoint tlookup (n : node) (p : list string) : option node :=
  match p with
  | [] => Some n
  | c :: p' =>
      match n with
      | Dir es => assoc c es ≫= λ n', tlookup n' p'
      | File _ => None
      end
  end.

(** Put [x] at the path [p]; the directories above it exist. *)
Fixpoint tput (n : node) (p : list string) (x : node) : node :=
  match p with
  | [] => x
  | c :: p' =>
      match n with
      | Dir es => Dir (put_entry c (λ old, tput (default (Dir []) old) p' x) es)
      | File _ => n
      end
  end.

(** The components of a path string, empty ones included. *)
Fixpoint split_sep (cur p : string) : list string :=
  match p with
  | EmptyString => [cur]
  | String c p' =>
      if bool_decide (c = "/"%char) then cur :: split_sep "" p'
      else split_sep (cur +:+ String c "") p'
  end.

(** Follow the components from the directory [cur]; every directory
    passed through must exist.  The result names the target, which need
    not exist. *)
Fixpoint walk (root : node) (cur comps : list string) : res (list string) :=
  match comps with
  | [] => Ok cur
  | c :: cs =>
      match tlookup root cur with
      | Some (Dir _) =>
          if bool_decide (c = "" ∨ c = ".") then walk root cur cs
          else if bool_decide (c = "..") then walk root (removelast cur) cs
          else walk root (cur ++ [c]) cs
      | Some (File _) => Raise NotADirectoryError
      | None => Raise FileNotFoundError
      end
  end.

Definition resolve (root : node) (p : string) : res (list string) :=
  if bool_decide (p = "") then Raise FileNotFoundError
  else walk root [] (split_sep "" p).

Definition stat (root : node) (p : string) : res node :=
  q ← resolve root p;
  match tlookup root q with
  | Some n => Ok n
  | None => Raise FileNotFoundError
  end.

Definition exists_ (root : node) (p : string) : bool :=
  match stat root p with Ok _ => true | Raise _ => false end.

Definition isdir (root : node) (p : string) : bool :=
  match stat root p with Ok (Dir _) => true | _ => false end.

Definition listdir (root : node) (p : string) : res (list string) :=
  n ← stat root p;
  match n with
  | Dir es => Ok (es.*1)
  | File _ => Raise NotADirectoryError
  end.

(** [os.makedirs]: create the missing directories from the top; the last
    component must be new. *)
Fixpoint mkdirs (root : node) (cur comps : list string) (made : bool)
    : res () * node :=
  match comps with
  | [] => (if made then Ok () else Raise FileExistsError, root)
  | c :: cs =>
      if bool_decide (c = "" ∨ c = ".") then mkdirs root cur cs made
      else if bool_decide (c = "..") then mkdirs root (removelast cur) cs false
      else
        match tlookup root (cur ++ [c]) with
        | Some (Dir _) => mkdirs root (cur ++ [c]) cs false
        | Some (File _) =>
            (Raise (if bool_decide (Forall (λ d, d = "" ∨ d = ".") cs)
                    then FileExistsError else NotADirectoryError), root)
        | None => mkdirs (tput root (cur ++ [c]) (Dir [])) (cur ++ [c]) cs true
        end
  end.

Definition makedirs (root : node) (p : string) : res () * node :=
  if bool_decide (p = "") then (Raise FileNotFoundError, root)
  else mkdirs root [] (split_sep "" p) false.

(** [open(p, 'wb')] followed by writing [c]. *)
Definition write_file (root : node) (p : string) (c : content)
    : res () * node :=
  match resolve root p with
  | Raise e => (Raise e, root)
  | Ok q =>
      match q, tlookup root q with
      | [], _ | _, Some (Dir _) => (Raise IsADirectoryError, root)
      | _, _ => (Ok (), tput root q (File c))
      end
  end.

(** [os.path.samefile] as [shutil] uses it: both paths name the same
    existing node. *)
Definition samefile (root : node) (p q : string) : bool :=
  match resolve root p, resolve root q with
  | Ok p', Ok q' => bool_decide (p' = q' ∧ is_Some (tlookup root p'))
  | _, _ => false
  end.

(** [shutil.copy2]: into a directory under the source's name, otherwise
    onto the destination; copying a file onto itself is refused.  File
    metadata is not part of the tree. *)
Definition copy2 (root : node) (src dst : string) : res () * node :=
  let dst := if isdir root dst then path_join dst (basename src) else dst in
  if samefile root src dst then (Raise SameFileError, root)
  else
    match stat root src with
    | Ok (File c) => write_file root dst c
    | Ok (Dir _) => (Raise IsADirectoryError, root)
    | Raise e => (Raise e, root)
    end.

(** The grayscale decoding of a file: 16-bit rasters lose their low
    byte. *)
Definition decode (c : content) : option image :=
  match c with
  | Gray8 img => Some img
  | Gray16 img => Some (map (map (λ v, v / 256)) img)
  | Bytes _ => None
  end.

Definition imread_grayscale (root : node) (p : string) : option image :=
  match stat root p with
  | Ok (File c) => decode c
  | _ => None
  end.

Definition lower (c : ascii) : ascii :=
  let n := nat_of_ascii c in
  if ((65 <=? n) && (n <=? 90))%nat then ascii_of_nat (n + 32) else c.

Fixpoint lower_string (s : string) : string :=
  match s with
  | EmptyString => EmptyString
  | String c s' => String (lower c) (lower_string s')
  end.

Definition alnum (c : ascii) : bool :=
  let n := nat_of_ascii c in
  ((48 <=? n) && (n <=? 57) || (65 <=? n) && (n <=? 90)
   || (97 <=? n) && (n <=? 122))%nat.

Fixpoint alnum_prefix (s : string) : string :=
  match s with
  | EmptyString => EmptyString
  | String c s' => if alnum c then String c (alnum_prefix s') else EmptyString
  end.

(** What follows the last dot of the path. *)
Fixpoint after_last_dot (p : string) : option string :=
  match p with
  | EmptyString => None
  | String c p' =>
      match after_last_dot p' with
      | Some e => Some e
      | None => if bool_decide (c = "."%char) then Some p' else None
      end
  end.

(** The extension an encoder is looked up by: the letters and digits
    after the last dot. *)
Definition extension (p : string) : option string :=
  alnum_prefix <$> after_last_dot p.

(** The encoder chosen by the extension, for the raster formats of a usual
    OpenCV build; formats without 16-bit support saturate the pixels to 8
    bits.  No encoder is found for other extensions. *)
Definition encode (p : string) (img : image) : option content :=
  match extension p with
  | None => None
  | Some e =>
      let e := lower_string e in
      if bool_decide (e ∈ ["png"; "tif"; "tiff"; "jp2";
                           "pgm"; "ppm"; "pnm"; "pxm"; "pam"])
      then Some (Gray16 img)
      else if bool_decide (e ∈ ["jpg"; "jpeg"; "jpe"; "bmp"; "dib";
                                "webp"; "sr"; "ras"]) then
        Some (Gray8 (map (map (Z.min 255)) img))
      else None
  end.

(** [cv2.imwrite]: raises without an encoder for the extension; returns
    [False] when the file cannot be opened. *)
Definition imwrite (root : node) (p : string) (img : image)
    : res bool * node :=
  match encode p img with
  | None => (Raise CvError, root)
  | Some c =>
      match write_file root p c with
      | (Ok _, root') => (Ok true, root')
      | (Raise _, _) => (Ok false, root)
      end
  end.

#[global] Instance tree_os : OS node := {|
  os_path_exists := exists_;
  os_listdir := listdir;
  os_makedirs := makedirs;
  shutil_copy2 := copy2;
  cv2_imread_grayscale := imread_grayscale;
  cv2_imwrite := imwrite;
|}.

(** Run a program on a file system with an empty log. *)
Definition run {A} (m : M node A) (root : node) : res A * world node :=
  m (World root []).

(** The run of the examples: the default patterns, format and excluded
    class of the command line. *)
Definition prepare (root : node) : res () * world node :=
  run (process_masks "in" "out" "raw" "ST_I06" "ST_K07" "png"
         default_exclude_class) root.

(** *** Input trees for the examples *)

(** One sample routed to "valid": class [A] with two masks that do not
    overlap, and the excluded class with one mask. *)
Definition scenario_tree : node := Dir [
  ("in", Dir [
    ("S1_ST_I06", Dir [
      ("A", Dir [("a1.png", File (Gray8 [[255; 0; 0]; [0; 0; 0]]));
                 ("a2.png", File (Gray8 [[0; 0; 0]; [0; 255; 255]]))]);
      ("Unidentified", Dir [("u1.png", File (Gray8 [[0; 255; 0]; [0; 0; 0]]))])])]);
  ("raw", Dir [("S1_ST_I06.tif", File (Bytes "raw image"));
               ("S2_ST_K07.tif", File (Bytes "another sample"))])].

(** One sample with two classes of one mask each; the class directory [B]
    also holds a file that is not an image. *)
Definition two_class_tree : node := Dir [
  ("in", Dir [
    ("S1", Dir [
      ("A", Dir [("a.png", File (Gray8 [[255; 0]]))]);
      ("B", Dir [("b.png", File (Gray8 [[0; 255]]));
                 ("notes.txt", File (Bytes "not an image"))])])]);
  ("raw", Dir [("S1.tif", File (Bytes "raw image"));
               ("S10.tif", File (Bytes "longer name"));
               ("s1.tif", File (Bytes "lower case"))])].

(** Two samples; the second one has no class directory at all. *)
Definition stale_tree : node := Dir [
  ("in", Dir [
    ("S1", Dir [("A", Dir [("a.png", File (Gray8 [[255; 0]]))])]);
    ("S2", Dir [])]);
  ("raw", Dir [])].

(** A first sample whose only class is the excluded one. *)
Definition excluded_only_tree : node := Dir [
  ("in", Dir [
    ("S1", Dir [("Unidentified", Dir [("u.png", File (Gray8 [[255; 0]]))])]);
    ("S2", Dir [("A", Dir [("a.png", File (Gray8 [[0; 255]]))])])]);
  ("raw", Dir [])].

(** Four entries under the input root, one with both patterns in its
    name. *)
Definition split_tree : node := Dir [
  ("in", Dir [("plate_ST_I06", Dir []); ("plate_ST_K07", Dir []);
              ("plate_A01", Dir []); ("ST_K07_ST_I06", Dir [])])].

End TreeFS.

(** ** Masks for the examples *)

Definition left_mask : image := [[255; 0]].
Definition right_mask : image := [[0; 255]].
Definition wide_mask : image := [[255; 255]].
Definition blank_mask : image := [[0; 0]].

(** ** Vocabulary of the further results *)

(** Every pixel is a value of the [uint16] buffer. *)
Definition uint16_image (img : image) : Prop :=
  Forall (Forall (λ v, 0 ≤ v ≤ 65535)) img.

(** Every run of [m] keeps the log it starts from and adds records that
    satisfy [P]. *)
Definition appends {FS A} (P : level * string → Prop) (m : M FS A) : Prop :=
  ∀ w r w', m w = (r, w') →
    ∃ extra, w_log w' = w_log w ++ extra ∧ Forall P extra.

(** A record below the ERROR level. *)
Definition quiet (rec : level * string) : Prop := rec.1 = INFO ∨ rec.1 = WARNING.

(** ** Further inputs *)

Definition small_mask : image := [[255]].
Definition tall_mask : image := [[0; 0]; [0; 255]].
Definition dim_mask : image := [[1; 0]].

Section Inputs.
Import TreeFS.

(** Three entries start with "S1"; the second one is a directory. *)
Definition copy_failure_tree : node := Dir [
  ("raw", Dir [("S1.tif", File (Bytes "raw image"));
               ("S1_extra", Dir []);
               ("S1_notes.txt", File (Bytes "notes"))]);
  ("dst", Dir [])].

(** An input root without entries. *)
Definition empty_root_tree : node := Dir [("in", Dir []); ("raw", Dir [])].

(** The first sample has the excluded class and a class whose only file
    is not an image. *)
Definition empty_class_tree : node := Dir [
  ("in", Dir [
    ("S1", Dir [("Unidentified", Dir []);
                ("A", Dir [("readme.txt", File (Bytes "no masks yet"))]);
                ("B", Dir [("b.png", File (Gray8 [[0; 255]]))])]);
    ("S2", Dir [("A", Dir [("a.png", File (Gray8 [[255; 0]]))])])]);
  ("raw", Dir [])].

(** A plain file is listed before the samples of the input root. *)
Definition stray_file_tree : node := Dir [
  ("in", Dir [
    ("notes.txt", File (Bytes "about this dataset"));
    ("S1", Dir [("A", Dir [("a.png", File (Gray8 [[255; 0]]))])])]);
  ("raw", Dir [])].

(** The first sample holds the excluded class and a plain file. *)
Definition file_in_sample_tree : node := Dir [
  ("in", Dir [
    ("S1", Dir [("Unidentified", Dir []);
                ("notes.txt", File (Bytes "about this sample"))])]);
  ("raw", Dir [])].

End Inputs.

(** ** train.py: the block that starts the training

    The parser defines four options; the block then reads the attribute
    [output_path] of the parsed arguments.  [main], which drives the
    cellpose model, is a parameter. *)

Module Train.

(** [argparse.Namespace]: attribute names with their values. *)
Abbreviation namespace := (list (string * string)) (only parsing).

(** [parser.parse_args()] for a command line with the three required
    options; [--experiments_dir] is optional. *)
Definition parse_args (train_dir valid_dir : string)
    (experiments_dir : option string) (experiment_name : string)
    : namespace :=
  [("train_dir", train_dir); ("valid_dir", valid_dir);
   ("experiments_dir", default "./experiments" experiments_dir);
   ("experiment_name", experiment_name)].

(** [ns.name], [None] when the namespace has no such attribute. *)
Fixpoint getattr (ns : namespace) (name : string) : option string :=
  match ns with
  | [] => None
  | (k, v) :: ns' => if decide (name = k) then Some v else getattr ns' name
  end.

Inductive error : Type :=
  | AttributeError
  | Exception (e : exn).

(** The [__main__] block after parsing: the state is the file system with
    the log, and the lines printed. *)
Definition main_block {FS} `{!OS FS} (main : namespace → M FS ())
    (args : namespace) (w : world FS) (printed : list string)
    : (error + ()) * world FS * list string :=
  match getattr args "output_path" with
  | None => (inl AttributeError, w, printed)
  | Some output_path =>
      if os_path_exists (w_fs w) output_path then
        match getattr args "experiments_dir" with
        | None => (inl AttributeError, w, printed)
        | Some dir =>
            (inl (Exception SystemExit), w,
             printed ++ ["The experiments " +:+ dir +:+ " already exists."])
        end
      else
        match main args w with
        | (Ok _, w') => (inr (), w', printed)
        | (Raise e, w') => (inl (Exception e), w', printed)
        end
  end.

End Train.

(** ** Results *)

(** *** Pixels and coordinates *)

Lemma inb_row img r c :
  inb img r c ↔ ∃ row, img !! r = Some row ∧ (c < length row)%nat.
Proof.
  unfold inb. split.
  - intros [v Hv]. destruct (img !! r) as [row|] eqn:Hr; [|done].
    exists row. split; [done|]. by eapply lookup_lt_Some.
  - intros (row & -> & Hc). simpl. by apply lookup_lt_is_Some_2.
Qed.

Lemma dims_inb h w img r c :
  dims h w img → inb img r c ↔ (r < h)%nat ∧ (c < w)%nat.
Proof.
  intros [Hh Hw]. rewrite inb_row. split.
  - intros (row & Hr & Hc).
    pose proof (lookup_lt_Some _ _ _ Hr).
    rewrite (Forall_lookup_1 _ _ _ _ Hw Hr) in Hc. lia.
  - intros [Hr Hc]. destruct (lookup_lt_is_Some_2 img r) as [row Hrow]; [lia|].
    exists row. split; [done|].
    rewrite (Forall_lookup_1 _ _ _ _ Hw Hrow). done.
Qed.

Lemma px_outside img r c : ¬ inb img r c → px img r c = 0.
Proof.
  unfold inb, px. intros Hn. destruct (img !! r ≫= (.!! c)) eqn:E; [|done].
  destruct Hn. eauto.
Qed.

Lemma fg_inb mask r c : fg mask r c → inb mask r c.
Proof.
  intros Hfg. destruct (decide (inb mask r c)) as [|Hn]; [done|].
  unfold fg in Hfg. rewrite px_outside in Hfg; [lia|done].
Qed.

Lemma rect_dims img : rect img → dims (shape img).1 (shape img).2 img.
Proof. intros H. split; [done|]. exact H. Qed.

Lemma dims_zeros h w : dims h w (zeros h w).
Proof.
  split; [apply length_replicate|].
  apply Forall_forall. intros row Hrow.
  apply elem_of_replicate in Hrow as [-> _]. apply length_replicate.
Qed.

Lemma px_zeros h w r c : px (zeros h w) r c = 0.
Proof.
  unfold px, zeros.
  destruct (decide (r < h)%nat) as [Hr|Hr].
  - rewrite lookup_replicate_2 by done. simpl.
    destruct (decide (c < w)%nat) as [Hc|Hc].
    + by rewrite lookup_replicate_2.
    + by rewrite (proj1 (lookup_replicate_None _ _ _)) by lia.
  - by rewrite (proj1 (lookup_replicate_None _ _ _)) by lia.
Qed.

(** *** One assignment *)

Lemma dims_set_px h w v img rc : dims h w img → dims h w (set_px v img rc).
Proof.
  intros [Hh Hw]. unfold set_px. split; [by rewrite length_alter|].
  apply Forall_lookup. intros i row Hi.
  rewrite list_lookup_alter in Hi. case_decide; subst.
  - destruct (img !! rc.1) as [row'|] eqn:Hr; [|done]. simpl in Hi.
    injection Hi as <-. rewrite length_insert.
    by eapply (Forall_lookup_1 _ _ _ _ Hw).
  - by eapply (Forall_lookup_1 _ _ _ _ Hw).
Qed.

Lemma px_set_px v img rc r c :
  px (set_px v img rc) r c
  = if decide (rc = (r, c) ∧ inb img r c) then v else px img r c.
Proof.
  destruct rc as [r' c']. unfold px, set_px, inb. simpl.
  rewrite list_lookup_alter.
  destruct (decide (r' = r)) as [->|Hr].
  - destruct (img !! r) as [row|] eqn:Hrow; simpl.
    + rewrite list_lookup_insert.
      destruct (decide (c' = c)) as [->|Hc].
      * destruct (decide (c < length row)%nat) as [Hlt|Hge].
        -- rewrite decide_True by done. simpl.
           rewrite decide_True; [done|]. split; [done|].
           by apply lookup_lt_is_Some_2.
        -- rewrite decide_False by tauto. 
           rewrite decide_False; [done|]. intros [_ Hs].
           apply lookup_lt_is_Some_1 in Hs. lia.
      * rewrite decide_False by tauto.
        rewrite decide_False; [done|]. intros [? _]. congruence.
    + rewrite decide_False; [done|]. by intros [_ [? ?]].
  - rewrite decide_False; [done|]. intros [? _]. congruence.
Qed.

Lemma inb_set_px v img rc r c : inb (set_px v img rc) r c ↔ inb img r c.
Proof.
  rewrite !inb_row. destruct rc as [r' c']. unfold set_px. simpl.
  setoid_rewrite list_lookup_alter.
  destruct (decide (r' = r)) as [->|Hr]; [|done].
  destruct (img !! r) as [row|] eqn:Hrow; simpl.
  - split.
    + intros (row' & [= <-] & Hc). rewrite length_insert in Hc. eauto.
    + intros (row' & [= <-] & Hc). eexists. split; [done|].
      by rewrite length_insert.
  - split; intros (? & ? & _); done.
Qed.

Lemma px_foldl_set_px v idx img r c :
  px (foldl (set_px v) img idx) r c
  = if decide ((r, c) ∈ idx ∧ inb img r c) then v else px img r c.
Proof.
  revert img. induction idx as [|rc idx IH]; intros img; simpl.
  - done.
  - rewrite IH, px_set_px.
    pose proof (inb_set_px v img rc r c) as Hinb.
    assert ((r, c) ∈ rc :: idx ↔ rc = (r, c) ∨ (r, c) ∈ idx) as Hcons
      by (rewrite elem_of_cons; intuition congruence).
    repeat case_decide; try done; exfalso; tauto.
Qed.

Lemma dims_foldl_set_px h w v idx img :
  dims h w img → dims h w (foldl (set_px v) img idx).
Proof.
  revert img. induction idx as [|rc idx IH]; intros img Hd; simpl; [done|].
  apply IH. by apply dims_set_px.
Qed.

(** *** np.where *)

Lemma elem_of_row_where r row rc :
  rc ∈ row_where r row ↔ ∃ v, rc.1 = r ∧ row !! rc.2 = Some v ∧ 0 < v.
Proof.
  unfold row_where. rewrite list_elem_of_omap. split.
  - intros (o & Ho & Hid). simpl in Hid. subst o.
    apply elem_of_lookup_imap in Ho as (c & v & Hv & Hc).
    case_bool_decide; [|done]. injection Hv as ->. simpl. eauto.
  - intros (v & Hr & Hc & Hv). exists (Some rc). split; [|done].
    apply elem_of_lookup_imap. exists rc.2, v.
    rewrite bool_decide_true by done. split; [|done].
    destruct rc; simpl in *; by subst.
Qed.

Lemma elem_of_np_where_gt0 mask r c :
  (r, c) ∈ np_where_gt0 mask ↔ fg mask r c.
Proof.
  unfold np_where_gt0, fg, px. rewrite list_elem_of_join. split.
  - intros (l & Hin & Hl).
    apply elem_of_lookup_imap in Hl as (r' & row & -> & Hrow).
    apply elem_of_row_where in Hin as (v & Hr & Hc & Hv). simpl in *. subst r'.
    rewrite Hrow. simpl. rewrite Hc. done.
  - intros Hpos. destruct (mask !! r) as [row|] eqn:Hrow; simpl in Hpos; [|lia].
    destruct (row !! c) as [v|] eqn:Hc; simpl in Hpos; [|lia].
    exists (row_where r row). split.
    + apply elem_of_row_where. simpl. eauto.
    + apply elem_of_lookup_imap. eauto.
Qed.

(** *** The loop of combine_masks *)

Lemma assign_at_fits h w combined mask v :
  fits h w mask →
  assign_at h w combined (np_where_gt0 mask) v
  = Ok (foldl (set_px (to_uint16 v)) combined (np_where_gt0 mask)).
Proof.
  intros Hfit. unfold assign_at.
  destruct (forallb _ _) eqn:E; [done|].
  apply not_true_iff_false in E. destruct E.
  apply Is_true_true, forallb_True, Forall_forall. intros [r c] Hin.
  apply elem_of_np_where_gt0, Hfit in Hin as [Hr Hc]. simpl.
  apply Is_true_true, andb_true_iff. split; by apply Nat.ltb_lt.
Qed.

Lemma combine_loop_spec h w masks : ∀ combined object_id,
  dims h w combined →
  Forall (fits h w) masks →
  ∃ out, combine_loop h w masks combined object_id = Ok out ∧ dims h w out ∧
    ∀ r c, px out r c = label masks object_id r c (px combined r c).
Proof.
  induction masks as [|mask rest IH]; intros combined object_id Hd Hfit.
  - exists combined. done.
  - apply Forall_cons in Hfit as [Hm Hrest]. simpl.
    rewrite assign_at_fits by done. simpl.
    destruct (IH (foldl (set_px (to_uint16 object_id)) combined
                    (np_where_gt0 mask)) (object_id + 1))
      as (out & Hout & Hdo & Hpx); [by apply dims_foldl_set_px|done|].
    exists out. split; [done|]. split; [done|]. intros r c.
    rewrite Hpx, px_foldl_set_px. f_equal.
    pose proof (elem_of_np_where_gt0 mask r c) as Hw.
    pose proof (dims_inb h w combined r c Hd) as Hin.
    pose proof (Hm r c) as Hb.
    repeat case_decide; try done; exfalso; tauto.
Qed.

Lemma label_background masks : ∀ object_id r c cur,
  Forall (λ m, ¬ fg m r c) masks → label masks object_id r c cur = cur.
Proof.
  induction masks as [|mask rest IH]; intros object_id r c cur H; [done|].
  apply Forall_cons in H as [Hm Hrest]. simpl.
  rewrite decide_False by done. by apply IH.
Qed.

Lemma label_only masks : ∀ k mask object_id r c cur,
  masks !! k = Some mask → fg mask r c →
  (∀ j mj, masks !! j = Some mj → j ≠ k → ¬ fg mj r c) →
  label masks object_id r c cur = to_uint16 (object_id + Z.of_nat k).
Proof.
  induction masks as [|m0 rest IH]; intros k mask object_id r c cur Hk Hfg Hoth;
    [done|].
  destruct k as [|k]; simpl in *.
  - injection Hk as ->. rewrite decide_True by done.
    rewrite label_background; [f_equal; lia|].
    apply Forall_lookup. intros j mj Hj. by apply (Hoth (S j)).
  - rewrite (IH k mask); [f_equal; lia|done|done|].
    intros j mj Hj Hne. apply (Hoth (S j)); [done|lia].
Qed.

Lemma dims_rect h w img : dims h w img → dims (shape img).1 (shape img).2 img.
Proof.
  intros [Hh Hw]. split; [done|]. destruct img as [|row img]; [done|].
  simpl. apply Forall_cons in Hw as [Hrow Hw].
  apply Forall_cons. split; [done|].
  eapply Forall_impl; [exact Hw|]. simpl. intros; congruence.
Qed.

Lemma dims_shape h w img :
  dims h w img → h ≠ 0%nat → shape img = (h, w).
Proof.
  intros [Hh Hw] Hne. unfold shape. destruct img as [|row img]; [done|].
  apply Forall_cons in Hw as [Hrow _]. simpl in *. congruence.
Qed.

Lemma dims_fits h w img : dims h w img → fits h w img.
Proof. intros Hd r c Hfg. by apply (dims_inb h w img), fg_inb. Qed.

Lemma elem_of_pixels (img : image) v :
  v ∈ mjoin img ↔ ∃ r c, img !! r ≫= (.!! c) = Some v.
Proof.
  rewrite list_elem_of_join. split.
  - intros (row & [c Hc]%list_elem_of_lookup & [r Hr]%list_elem_of_lookup).
    exists r, c. by rewrite Hr.
  - intros (r & c & H). destruct (img !! r) as [row|] eqn:Hr; [|done].
    exists row. split; by eapply list_elem_of_lookup_2.
Qed.

Lemma elem_of_nonzero_values img v :
  v ∈ nonzero_values img ↔ v ≠ 0 ∧ ∃ r c, px img r c = v.
Proof.
  unfold nonzero_values.
  rewrite elem_of_remove_dups, list_elem_of_filter, elem_of_pixels.
  split; intros [Hv (r & c & H)]; (split; [done|]); exists r, c.
  - unfold px. by rewrite H.
  - unfold px in H. destruct (img !! r ≫= (.!! c)); simpl in *; congruence.
Qed.

Lemma NoDup_nonzero_values img : NoDup (nonzero_values img).
Proof. apply NoDup_remove_dups. Qed.

Lemma combine_masks_spec first rest h w :
  Forall (dims h w) (first :: rest) →
  ∃ out, combine_masks (first :: rest) = Ok out ∧ dims h w out ∧
    ∀ r c, px out r c = label (first :: rest) 1 r c 0.
Proof.
  intros Hall. unfold combine_masks.
  destruct (shape first) as [height width] eqn:Hs.
  assert (Forall (fits height width) (first :: rest)) as Hfit.
  { eapply Forall_impl; [exact Hall|]. intros m Hm r c Hfg.
    pose proof (dims_fits _ _ _ Hm r c Hfg) as [Hr Hc].
    apply Forall_cons in Hall as [Hf _].
    rewrite (dims_shape h w first) in Hs by (done || lia).
    injection Hs as <- <-. done. }
  destruct (combine_loop_spec height width (first :: rest)
              (zeros height width) 1 (dims_zeros _ _) Hfit)
    as (out & Hout & Hd & Hpx).
  exists out. split; [done|]. split.
  - apply Forall_cons in Hall as [Hf _].
    destruct (decide (h = 0%nat)) as [->|Hne].
    + destruct Hf as [Hlen _]. destruct Hd as [Hlo _].
      unfold shape in Hs. rewrite Hlen in Hs. injection Hs as <- <-.
      apply nil_length_inv in Hlo as ->. by split.
    + rewrite (dims_shape h w first) in Hs by done. by injection Hs as <- <-.
  - intros r c. by rewrite Hpx, px_zeros.
Qed.

(** C2 (amended): for at most 65535 masks of one size whose foregrounds are
    pairwise disjoint, [combine_masks] returns an image of that size in
    which the foreground of the k-th mask (counted from 1) holds the value
    k and every pixel that is foreground in no mask holds 0; when in
    addition every mask has a foreground pixel, the image holds exactly N
    distinct values other than 0, the numbers 1 to N. *)
Theorem combine_masks_disjoint (masks : list image) (h w : nat) :
  masks ≠ [] →
  Z.of_nat (length masks) ≤ 65535 →
  Forall (dims h w) masks →
  (∀ i j mi mj r c, masks !! i = Some mi → masks !! j = Some mj → i ≠ j →
     fg mi r c → ¬ fg mj r c) →
  ∃ out, combine_masks masks = Ok out ∧ dims h w out ∧
    (∀ k mask r c, masks !! k = Some mask → fg mask r c →
       px out r c = Z.of_nat k + 1) ∧
    (∀ r c, Forall (λ mask, ¬ fg mask r c) masks → px out r c = 0) ∧
    (Forall (λ mask, ∃ r c, fg mask r c) masks →
       length (nonzero_values out) = length masks ∧
       ∀ v, v ∈ nonzero_values out ↔ 1 ≤ v ≤ Z.of_nat (length masks)).
Proof.
  intros Hne Hlen Hall Hdisj.
  destruct masks as [|first rest]; [done|].
  destruct (combine_masks_spec first rest h w Hall) as (out & Hout & Hd & Hpx).
  exists out. split; [done|]. split; [done|].
  assert (∀ k mask r c, (first :: rest) !! k = Some mask → fg mask r c →
            px out r c = Z.of_nat k + 1) as Hfgpx.
  { intros k mask r c Hk Hfg. rewrite Hpx.
    rewrite (label_only _ k mask) by eauto.
    pose proof (lookup_lt_Some _ _ _ Hk) as Hlt. unfold to_uint16.
    simpl in Hlen, Hlt. rewrite Z.mod_small; lia. }
  assert (∀ r c, Forall (λ mask, ¬ fg mask r c) (first :: rest) →
            px out r c = 0) as Hbgpx.
  { intros r c Hbg. rewrite Hpx. by apply label_background. }
  split; [done|]. split; [done|]. intros Hnonempty.
  assert (∀ v, v ∈ nonzero_values out
               ↔ v ∈ seqZ 1 (Z.of_nat (length (first :: rest)))) as Hvals.
  { intros v. rewrite elem_of_nonzero_values, elem_of_seqZ. split.
    - intros [Hv (r & c & Hrc)].
      destruct (decide (Forall (λ mask, ¬ fg mask r c) (first :: rest)))
        as [Hbg|Hsome].
      + rewrite Hbgpx in Hrc by done. congruence.
      + apply not_Forall_Exists in Hsome; [|apply _].
        apply Exists_exists in Hsome as (mask & Hin & Hfg).
        apply dec_stable in Hfg.
        apply list_elem_of_lookup in Hin as [k Hk].
        rewrite (Hfgpx k mask) in Hrc by done.
        pose proof (lookup_lt_Some _ _ _ Hk). lia.
    - intros Hv.
      destruct (lookup_lt_is_Some_2 (first :: rest) (Z.to_nat (v - 1)))
        as [mask Hk]; [lia|].
      destruct (Forall_lookup_1 _ _ _ _ Hnonempty Hk) as (r & c & Hfg).
      split; [lia|]. exists r, c. rewrite (Hfgpx _ mask) by done. lia. }
  split.
  - rewrite (NoDup_Permutation _ _ (NoDup_nonzero_values out)
               (NoDup_seqZ _ _) Hvals).
    rewrite length_seqZ. lia.
  - intros v. rewrite Hvals, elem_of_seqZ. lia.
Qed.

(** C3: with two masks, the second one's foreground inside the first
    one's, [combine_masks] returns 2 on the foreground of the second mask,
    1 on the rest of the foreground of the first, and 0 elsewhere: the
    later identifier wins on the overlap and no identifier is skipped. *)
Theorem combine_masks_last_write_wins (mask1 mask2 : image) :
  rect mask1 →
  (∀ r c, fg mask2 r c → fg mask1 r c) →
  ∃ out, combine_masks [mask1; mask2] = Ok out ∧
    dims (shape mask1).1 (shape mask1).2 out ∧
    ∀ r c, px out r c =
      if decide (fg mask2 r c) then 2
      else if decide (fg mask1 r c) then 1 else 0.
Proof.
  intros Hrect Hsub. unfold combine_masks.
  destruct (shape mask1) as [height width] eqn:Hs. simpl.
  assert (dims height width mask1) as Hd1.
  { apply rect_dims in Hrect. by rewrite Hs in Hrect. }
  assert (Forall (fits height width) [mask1; mask2]) as Hfit.
  { repeat apply Forall_cons_2; [by apply dims_fits| |done].
    intros r c Hfg. by apply (dims_fits _ _ _ Hd1), Hsub. }
  destruct (combine_loop_spec height width [mask1; mask2]
              (zeros height width) 1 (dims_zeros _ _) Hfit)
    as (out & Hout & Hd & Hpx).
  exists out. split; [done|]. split; [done|]. intros r c.
  rewrite Hpx, px_zeros. simpl. by repeat case_decide.
Qed.

(** C4: on the empty sequence [combine_masks] raises (IndexError, from
    [mask_images[0]]) and returns no image. *)
Theorem combine_masks_empty :
  combine_masks [] = Raise IndexError ∧ ∀ out, combine_masks [] ≠ Ok out.
Proof. split; [reflexivity|]. intros out. discriminate. Qed.

(** *** Strings *)

Lemma startswith_spec s pre :
  startswith s pre = true ↔ ∃ rest, s = pre +:+ rest.
Proof.
  revert s. induction pre as [|a pre IH]; intros s; simpl.
  - split; [eauto|done].
  - destruct s as [|b s].
    + split; [done|]. intros [rest H]. discriminate.
    + rewrite andb_true_iff, bool_decide_eq_true, IH. split.
      * intros [-> [rest ->]]. eauto.
      * intros [rest [= -> ->]]. eauto.
Qed.

Lemma contains_spec pat s :
  contains pat s = true ↔ ∃ a b, s = a +:+ pat +:+ b.
Proof.
  induction s as [|c s IH]; simpl.
  - rewrite orb_false_r, startswith_spec. split.
    + intros [rest H]. exists "", rest. done.
    + intros (a & b & H). destruct a; [|discriminate]. eauto.
  - rewrite orb_true_iff, startswith_spec, IH. split.
    + intros [[rest H]|(a & b & ->)].
      * exists "", rest. done.
      * exists (String c a), b. done.
    + intros (a & b & H). destruct a as [|c' a]; simpl in H; [eauto|].
      injection H as -> ->. eauto.
Qed.

(** *** The monad *)

Section Monad.
Context {FS : Type}.

Lemma bind_ok {A B} (m : M FS A) (f : A → M FS B) w a w' :
  m w = (Ok a, w') → (m ≫= f) w = f a w'.
Proof. intros H. unfold mbind, M_bind. by rewrite H. Qed.

Lemma bind_raise {A B} (m : M FS A) (f : A → M FS B) w e w' :
  m w = (Raise e, w') → (m ≫= f) w = (Raise e, w').
Proof. intros H. unfold mbind, M_bind. by rewrite H. Qed.

Lemma for_each_cons {S A} (body : S → A → M FS S) s x l w :
  for_each body s (x :: l) w = (body s x ≫= λ s', for_each body s' l) w.
Proof. done. Qed.

End Monad.

(** *** split_data *)

Lemma dict_get_append k k' v (data : dict) :
  dict_get k (dict_append k' v data)
  = if decide (k = k') then dict_get k data ++ [v] else dict_get k data.
Proof.
  induction data as [|[k0 vs] data IH]; simpl.
  - repeat case_decide; done.
  - repeat (case_decide; simpl; subst); try done; congruence.
Qed.

Lemma dict_keys_append k v (data : dict) key :
  key ∈ (dict_append k v data).*1 → key = k ∨ key ∈ data.*1.
Proof.
  induction data as [|[k0 vs] data IH]; simpl.
  - rewrite list_elem_of_singleton. auto.
  - case_decide; simpl; [auto|].
    rewrite !elem_of_cons. intros [?|?]; [auto|]. destruct IH; auto.
Qed.

Lemma dict_append_head k v k0 p ps (d : dict) :
  ∃ ps' d', dict_append k v ((k0, p :: ps) :: d) = (k0, p :: ps') :: d'.
Proof. simpl. case_decide; simpl; eauto. Qed.

Section Split.
Context (dir vp tp : string).

Lemma split_step_bucket data name :
  split_step dir vp tp data name
  = dict_append (bucket vp tp name) (path_join dir name) data.
Proof. unfold split_step, bucket. by repeat case_match. Qed.

Lemma bucket_cases name :
  bucket vp tp name = "valid" ∨ bucket vp tp name = "test"
  ∨ bucket vp tp name = "train".
Proof. unfold bucket. repeat case_match; auto. Qed.

Lemma dict_get_split k names : ∀ data,
  dict_get k (foldl (split_step dir vp tp) data names)
  = dict_get k data
    ++ (path_join dir <$> filter (λ n, bucket vp tp n = k) names).
Proof.
  induction names as [|n names IH]; intros data; simpl.
  - by rewrite app_nil_r.
  - rewrite IH, split_step_bucket, dict_get_append, filter_cons.
    repeat case_decide; try congruence.
    by rewrite <- app_assoc.
Qed.

Lemma dict_keys_split names : ∀ data key,
  key ∈ (foldl (split_step dir vp tp) data names).*1 →
  key ∈ data.*1 ∨ key ∈ ["valid"; "test"; "train"].
Proof.
  induction names as [|n names IH]; intros data key; simpl; [auto|].
  intros [H|H]%IH; [|auto]. rewrite split_step_bucket in H.
  apply dict_keys_append in H as [->|H]; [|auto]. right.
  rewrite !elem_of_cons. destruct (bucket_cases n) as [-> | [-> | ->]]; auto.
Qed.

Lemma buckets_permutation (names : list string) :
  filter (λ n, bucket vp tp n = "valid") names
  ++ filter (λ n, bucket vp tp n = "test") names
  ++ filter (λ n, bucket vp tp n = "train") names ≡ₚ names.
Proof.
  induction names as [|n names IH]; [done|].
  rewrite !filter_cons.
  destruct (bucket_cases n) as [Hb|[Hb|Hb]];
    repeat case_decide; try congruence.
  - rewrite <- app_comm_cons. by rewrite IH.
  - rewrite <- app_comm_cons, <- Permutation_middle. by rewrite IH.
  - rewrite app_assoc, <- Permutation_middle, <- app_assoc. by rewrite IH.
Qed.

(** The first name listed opens the dictionary, and stays in front. *)
Lemma split_first rest : ∀ k0 p ps (d : dict),
  ∃ ps' d', foldl (split_step dir vp tp) ((k0, p :: ps) :: d) rest
            = (k0, p :: ps') :: d'.
Proof.
  induction rest as [|n rest IH]; intros k0 p ps d; [simpl; eauto|].
  cbn [foldl]. rewrite split_step_bucket.
  destruct (dict_append_head (bucket vp tp n) (path_join dir n) k0 p ps d)
    as (ps' & d' & ->).
  apply IH.
Qed.

End Split.

(** C5: [split_data] puts every listed name into one bucket: "valid" when
    the name contains the validation pattern, else "test" when it contains
    the test pattern, else "train" (so a name with both patterns is
    "valid"); the three buckets together hold each listed entry once, no
    other bucket exists, and containment is plain substring search. *)
Theorem split_data_partition {FS} `{!OS FS} (dir vp tp : string)
    (names : list string) (w : world FS) :
  os_listdir (w_fs w) dir = Ok names →
  ∃ data, split_data dir vp tp w = (Ok data, w) ∧
    dict_get "valid" data
      = path_join dir <$> filter (λ n, contains vp n = true) names ∧
    dict_get "test" data
      = path_join dir <$>
          filter (λ n, contains vp n = false ∧ contains tp n = true) names ∧
    dict_get "train" data
      = path_join dir <$>
          filter (λ n, contains vp n = false ∧ contains tp n = false) names ∧
    (∀ key, key ∈ data.*1 → key ∈ ["valid"; "test"; "train"]) ∧
    dict_get "valid" data ++ dict_get "test" data ++ dict_get "train" data
      ≡ₚ path_join dir <$> names ∧
    (∀ pat n, contains pat n = true ↔ ∃ a b, n = a +:+ pat +:+ b).
Proof.
  intros Hls. eexists. split.
  { unfold split_data. erewrite bind_ok; [reflexivity|].
    unfold listdir. by rewrite Hls. }
  assert (∀ k (P : string → Prop) `{!∀ n, Decision (P n)},
            (∀ n, bucket vp tp n = k ↔ P n) →
            dict_get k (foldl (split_step dir vp tp) [] names)
            = path_join dir <$> filter P names) as Hget.
  { intros k P ? HP. rewrite dict_get_split. simpl. f_equal.
    apply list_filter_iff. done. }
  split; [|split; [|split; [|split; [|split]]]].
  - apply Hget. intros n. unfold bucket.
    repeat case_match; intuition congruence.
  - apply Hget. intros n. unfold bucket.
    repeat case_match; intuition congruence.
  - apply Hget. intros n. unfold bucket.
    repeat case_match; intuition congruence.
  - intros key [H|H]%dict_keys_split; [|done]. by apply elem_of_nil in H.
  - rewrite !dict_get_split. simpl. rewrite <- !fmap_app.
    by rewrite buckets_permutation.
  - apply contains_spec.
Qed.

(** *** Copying and loading *)

Section Effects.
Context {FS : Type} `{!OS FS}.

Lemma copy_loop_filter src dst base names (w : world FS) :
  for_each (copy_step src dst base) () names w
  = copy_files src dst (filter (λ f, startswith f base = true) names) w.
Proof.
  unfold copy_files. revert w.
  induction names as [|f names IH]; intros w; [done|].
  rewrite filter_cons, for_each_cons.
  destruct (startswith f base) eqn:E.
  - assert (copy_step src dst base () f = copy_file src dst f) as ->
      by (unfold copy_step; by rewrite E).
    rewrite decide_True by done. rewrite for_each_cons.
    unfold mbind, M_bind. cbv beta.
    destruct (copy_file src dst f w) as [[[]|e] w1]; [|done]. apply IH.
  - assert (copy_step src dst base () f = mret ()) as ->
      by (unfold copy_step; by rewrite E).
    rewrite decide_False by done. apply IH.
Qed.

Lemma copy_file_log src dst f (w w' : world FS) :
  copy_file src dst f w = (Ok (), w') →
  w_log w' = w_log w ++ [(INFO, "Copied corresponding file: " +:+ f)].
Proof.
  unfold copy_file, mbind, M_bind, copy2, logging.
  destruct (shutil_copy2 _ _ _) as [[[]|e] fs1]; [|done].
  by intros [= <-].
Qed.

Lemma copy_files_log src dst files : ∀ (w w' : world FS),
  copy_files src dst files w = (Ok (), w') →
  w_log w' = w_log w
    ++ ((λ f, (INFO, "Copied corresponding file: " +:+ f)) <$> files).
Proof.
  unfold copy_files.
  induction files as [|f files IH]; intros w w'.
  - intros [= <-]. by rewrite app_nil_r.
  - rewrite for_each_cons. unfold mbind, M_bind. cbv beta.
    destruct (copy_file src dst f w) as [[[]|e] w1] eqn:E; [|done].
    intros Hrest. apply IH in Hrest. apply copy_file_log in E.
    rewrite Hrest, E. by rewrite <- app_assoc.
Qed.

Lemma copy_files_copy_all src dst files : ∀ (w : world FS),
  copy_files src dst files w
  = ((copy_all src dst files (w_fs w)).1.1,
     World (copy_all src dst files (w_fs w)).1.2
       (w_log w ++ ((λ f, (INFO, "Copied corresponding file: " +:+ f))
                    <$> (copy_all src dst files (w_fs w)).2))).
Proof.
  unfold copy_files. induction files as [|f files IH]; intros [fs log].
  - simpl. by rewrite app_nil_r.
  - rewrite for_each_cons. cbn [copy_all w_fs w_log].
    unfold mbind at 1, M_bind at 1. cbv beta.
    unfold copy_file at 1, mbind at 1, M_bind at 1, copy2 at 1. simpl.
    destruct (shutil_copy2 fs (path_join src f) (path_join dst f))
      as [[[]|e] fs1]; simpl.
    + rewrite IH. simpl.
      destruct (copy_all src dst files fs1) as [[r fs2] copied]. simpl.
      by rewrite <- app_assoc.
    + by rewrite app_nil_r.
Qed.

Lemma copy_all_copied src dst files : ∀ (fs : FS),
  (copy_all src dst files fs).2 `prefix_of` files ∧
  ((copy_all src dst files fs).1.1 = Ok () →
     (copy_all src dst files fs).2 = files).
Proof.
  induction files as [|f files IH]; intros fs; simpl; [done|].
  destruct (shutil_copy2 fs (path_join src f) (path_join dst f))
    as [[[]|e] fs1]; simpl.
  - destruct (IH fs1) as [Hpre Hall].
    destruct (copy_all src dst files fs1) as [[r fs2] copied]. simpl in *.
    split; [by apply prefix_cons|]. intros Hr. by rewrite Hall.
  - split; [apply prefix_nil|done].
Qed.

(** C6 (amended): [copy_corresponding_files] calls [shutil.copy2] on the
    entries whose name starts with the base name (an exact prefix test),
    from the source directory to the same name in the destination, in
    listing order and up to the first call that raises, and on no other
    entry; the file system it leaves is the one these calls leave, and
    one record is logged per call that returned.  When no call raises,
    every such entry has been copied; when no entry matches (an empty
    directory, say) nothing is copied or logged and nothing is raised. *)
Theorem copy_corresponding_files_prefix (src dst base : string)
    (names : list string) (w : world FS) :
  os_listdir (w_fs w) src = Ok names →
  let matching := filter (λ f, startswith f base = true) names in
  let calls := copy_all src dst matching (w_fs w) in
  copy_corresponding_files src dst base w
    = (calls.1.1,
       World calls.1.2
         (w_log w ++ ((λ f, (INFO, "Copied corresponding file: " +:+ f))
                      <$> calls.2))) ∧
  calls.2 `prefix_of` matching ∧
  (calls.1.1 = Ok () → calls.2 = matching) ∧
  (matching = [] → copy_corresponding_files src dst base w = (Ok (), w)) ∧
  (∀ f, f ∈ matching ↔ f ∈ names ∧ ∃ rest, f = base +:+ rest).
Proof.
  intros Hls matching calls.
  assert (copy_corresponding_files src dst base w
          = copy_files src dst matching w) as Heq.
  { unfold copy_corresponding_files.
    erewrite bind_ok; [|unfold listdir; by rewrite Hls].
    apply copy_loop_filter. }
  split; [by rewrite Heq, copy_files_copy_all|].
  destruct (copy_all_copied src dst matching (w_fs w)) as [Hpre Hall].
  split; [done|]. split; [done|]. split.
  - intros Hnone. by rewrite Heq, Hnone.
  - intros f. unfold matching.
    rewrite list_elem_of_filter, startswith_spec. tauto.
Qed.

Lemma load_step_run folder images f (fs : FS) log :
  load_step folder images f (World fs log)
  = match cv2_imread_grayscale fs (path_join folder f) with
    | Some i => (Ok (images ++ [i]), World fs log)
    | None =>
        (Ok images,
         World fs (log ++ [(WARNING, "Failed to read image: " +:+ f)]))
    end.
Proof.
  unfold load_step, mbind, M_bind, imread_grayscale. simpl.
  by destruct (cv2_imread_grayscale _ _).
Qed.

Lemma load_loop folder (fs : FS) names : ∀ images log,
  let decoded f := cv2_imread_grayscale fs (path_join folder f) in
  for_each (load_step folder) images names (World fs log)
  = (Ok (images ++ omap decoded names),
     World fs (log ++ ((λ f, (WARNING, "Failed to read image: " +:+ f))
                        <$> filter (λ f, decoded f = None) names))).
Proof.
  induction names as [|f names IH]; intros images log decoded.
  - simpl. by rewrite !app_nil_r.
  - rewrite filter_cons, for_each_cons. unfold mbind, M_bind.
    rewrite load_step_run. cbn [omap list_omap]. fold (decoded f).
    destruct (decoded f) as [img|] eqn:E.
    + rewrite decide_False by done. rewrite IH. by rewrite <- app_assoc.
    + rewrite decide_True by done. rewrite IH. simpl.
      by rewrite <- app_assoc.
Qed.

(** C8: [load_mask_images] returns the images of the files that decode, in
    listing order, logs one warning for each file that does not and goes
    on, and leaves the file system alone; when no file decodes (an empty
    directory included) it returns the empty list. *)
Theorem load_mask_images_skips_unreadable (folder : string)
    (names : list string) (w : world FS) :
  os_listdir (w_fs w) folder = Ok names →
  let decoded f := cv2_imread_grayscale (w_fs w) (path_join folder f) in
  ∃ images w', load_mask_images folder w = (Ok images, w') ∧
    images = omap decoded names ∧
    w_fs w' = w_fs w ∧
    w_log w' = w_log w
      ++ ((λ f, (WARNING, "Failed to read image: " +:+ f))
          <$> filter (λ f, decoded f = None) names) ∧
    (Forall (λ f, decoded f = None) names → images = []).
Proof.
  intros Hls decoded. destruct w as [fs log]. simpl in *.
  eexists _, _. split.
  { unfold load_mask_images.
    erewrite bind_ok; [|unfold listdir; simpl; by rewrite Hls].
    apply load_loop. }
  split; [done|]. split; [done|]. split; [done|].
  intros Hnone. unfold decoded in *. clear Hls.
  induction Hnone as [|f names' Hf _ IH]; [done|].
  cbn [omap list_omap]. by rewrite Hf.
Qed.

(** C7: when the input root does not exist, [process_masks] logs an error
    and returns; the file system is untouched. *)
Theorem process_masks_missing_input
    (input_path output_dir corresponding_files_dir : string)
    (val_pattern test_pattern format : string) (exclude_class : list string)
    (w : world FS) :
  os_path_exists (w_fs w) input_path = false →
  process_masks input_path output_dir corresponding_files_dir
    val_pattern test_pattern format exclude_class w
  = (Ok (),
     World (w_fs w)
       (w_log w ++ [(ERROR, "The input path " +:+ input_path
                              +:+ " does not exist.")])).
Proof.
  intros Hno. unfold process_masks.
  erewrite bind_ok; [|unfold path_exists; by rewrite Hno]. done.
Qed.

(** C9: when the output root exists, the program logs an error and exits
    before [process_masks] is called; the file system is untouched. *)
Theorem main_output_exists (a : args) (w : world FS) :
  os_path_exists (w_fs w) (output_dir a) = true →
  main a w
  = (Raise SystemExit,
     World (w_fs w)
       (w_log w ++ [(ERROR, "The output path " +:+ output_dir a
                              +:+ " already exists.")])).
Proof.
  intros Hex. unfold main.
  erewrite bind_ok; [|unfold path_exists; by rewrite Hex]. done.
Qed.

End Effects.

(** *** A sample without a class to process *)

Section Unbound.
Context {FS : Type} `{!OS FS}.
Context (output_dir corresponding_files_dir format : string).
Context (exclude_class : list string).

Lemma skip_classes split_name filename_base dirpath classes :
  ∀ l (w : world FS),
  Forall (λ c, c ∈ exclude_class) classes →
  for_each (class_step output_dir corresponding_files_dir format
              exclude_class split_name filename_base dirpath) l classes w
  = (Ok l,
     World (w_fs w)
       (w_log w ++ ((λ c, (INFO, "Skipping " +:+ c +:+ "...")) <$> classes))).
Proof.
  induction classes as [|c classes IH]; intros l w Hall.
  - simpl. rewrite app_nil_r. by destruct w.
  - apply Forall_cons in Hall as [Hc Hall]. rewrite for_each_cons.
    erewrite bind_ok.
    2:{ unfold class_step. rewrite bool_decide_true by done.
        reflexivity. }
    rewrite IH by done. simpl. by rewrite <- app_assoc.
Qed.

Lemma sample_step_unbound split_name dirpath classes (w w1 : world FS) :
  create_directory (path_join4 output_dir format "all" split_name) w
    = (Ok (), w1) →
  os_listdir (w_fs w1) dirpath = Ok classes →
  Forall (λ c, c ∈ exclude_class) classes →
  sample_step output_dir corresponding_files_dir format exclude_class
    split_name None dirpath w
  = (Raise UnboundLocalError,
     World (w_fs w1)
       (w_log w1 ++ (INFO, "Processing " +:+ dirpath +:+ "...")
          :: ((λ c, (INFO, "Skipping " +:+ c +:+ "...")) <$> classes))).
Proof.
  intros Hmk Hls Hall. unfold sample_step.
  erewrite bind_ok; [|exact Hmk].
  erewrite bind_ok; [|reflexivity].
  erewrite bind_ok; [|unfold listdir; simpl; by rewrite Hls].
  erewrite bind_ok; [|by apply skip_classes].
  simpl. unfold raise. by rewrite <- app_assoc.
Qed.

End Unbound.

(** C10 (amended): when every entry that the directory of the first sample
    of the run lists is in the excluded set (a directory that lists
    nothing included), [process_masks] raises UnboundLocalError at that
    sample's aggregate step.  By then it has created the "all" directory
    of the sample's split and logged the skipped entries; no mask file is
    written, nothing is copied and no other sample is processed. *)
Theorem process_masks_first_sample_unbound {FS} `{!OS FS}
    (input_path output_dir corresponding_files_dir : string)
    (val_pattern test_pattern format : string) (exclude_class : list string)
    (first : string) (rest classes : list string) (w w1 : world FS) :
  os_path_exists (w_fs w) input_path = true →
  os_listdir (w_fs w) input_path = Ok (first :: rest) →
  let split_name := bucket val_pattern test_pattern first in
  let dirpath := path_join input_path first in
  create_directory (path_join4 output_dir format "all" split_name) w
    = (Ok (), w1) →
  os_listdir (w_fs w1) dirpath = Ok classes →
  Forall (λ c, c ∈ exclude_class) classes →
  process_masks input_path output_dir corresponding_files_dir
    val_pattern test_pattern format exclude_class w
  = (Raise UnboundLocalError,
     World (w_fs w1)
       (w_log w1 ++ (INFO, "Processing " +:+ dirpath +:+ "...")
          :: ((λ c, (INFO, "Skipping " +:+ c +:+ "...")) <$> classes))).
Proof.
  intros Hex Hls split_name dirpath Hmk Hcls Hall. unfold process_masks.
  erewrite bind_ok; [|unfold path_exists; by rewrite Hex]. simpl.
  erewrite bind_ok.
  2:{ unfold split_data. erewrite bind_ok; [reflexivity|].
      unfold listdir. by rewrite Hls. }
  cbn [foldl]. rewrite split_step_bucket. cbn [dict_append].
  fold split_name. fold dirpath.
  destruct (split_first input_path val_pattern test_pattern rest
              split_name dirpath [] []) as (ps & d & ->).
  apply bind_raise. unfold process_splits. rewrite for_each_cons.
  apply bind_raise. rewrite for_each_cons. apply bind_raise.
  by apply sample_step_unbound.
Qed.

(** *** The program on concrete inputs *)

Example combine_masks_two :
  combine_masks [ [[255; 0; 0]; [0; 0; 0]]; [[0; 0; 7]; [0; 1; 0]] ]
  = Ok [[1; 0; 2]; [0; 2; 0]].
Proof. reflexivity. Qed.

(** The 65536th identifier does not fit the buffer: it is stored as 0.
    (NumPy 2 refuses the assignment with OverflowError instead.) *)
Example combine_masks_uint16_wraps :
  combine_masks (replicate (Z.to_nat 65535) [[0]] ++ [[[1]]]) = Ok [[0]].
Proof. vm_compute. reflexivity. Qed.

Lemma disjoint_left_right i j (mi mj : image) r c :
  [left_mask; right_mask] !! i = Some mi →
  [left_mask; right_mask] !! j = Some mj →
  i ≠ j → fg mi r c → ¬ fg mj r c.
Proof.
  intros Hi Hj Hne.
  destruct i as [|[|i]], j as [|[|j]]; simplify_eq/=;
    destruct r as [|r], c as [|[|c]]; vm_compute; congruence.
Defined.

Lemma wide_covers_right r c : fg right_mask r c → fg wide_mask r c.
Proof. destruct r as [|r], c as [|[|c]]; vm_compute; congruence. Defined.

Lemma combine_masks_disjoint_witness :
  ∃ out, combine_masks [left_mask; right_mask] = Ok out ∧
    px out 0 0 = 1 ∧ px out 0 1 = 2 ∧ px out 1 0 = 0 ∧
    length (nonzero_values out) = 2%nat.
Proof.
  destruct (combine_masks_disjoint [left_mask; right_mask] 1 2)
    as (out & Hout & _ & Hfg & Hbg & Hcount).
  - discriminate.
  - vm_compute. discriminate.
  - repeat constructor.
  - apply disjoint_left_right.
  - exists out. split; [exact Hout|]. split; [|split; [|split]].
    + apply (Hfg 0%nat left_mask); [reflexivity|]. vm_compute. reflexivity.
    + apply (Hfg 1%nat right_mask); [reflexivity|]. vm_compute. reflexivity.
    + apply Hbg. repeat constructor; vm_compute; discriminate.
    + apply Hcount. repeat constructor.
      * exists 0%nat, 0%nat. vm_compute. reflexivity.
      * exists 0%nat, 1%nat. vm_compute. reflexivity.
Defined.

(** The same claim without the side condition on blank masks fails: a
    blank mask is disjoint from every mask and leaves no value behind. *)
Lemma combine_masks_blank_mask_counterexample :
  let masks : list image := [left_mask; blank_mask] in
  masks ≠ [] ∧ Forall (dims 1 2) masks ∧
  (∀ i j mi mj r c, masks !! i = Some mi → masks !! j = Some mj → i ≠ j →
     fg mi r c → ¬ fg mj r c) ∧
  ¬ ∃ out, combine_masks masks = Ok out ∧
      length (nonzero_values out) = length masks.
Proof.
  split; [discriminate|]. split; [repeat constructor|]. split.
  - intros i j mi mj r c Hi Hj Hne.
    destruct i as [|[|i]], j as [|[|j]]; simplify_eq/=;
      destruct r as [|r], c as [|[|c]]; vm_compute; congruence.
  - intros (out & Hout & Hlen). vm_compute in Hout.
    injection Hout as <-. vm_compute in Hlen. discriminate.
Qed.

Lemma combine_masks_last_write_wins_witness :
  ∃ out, combine_masks [wide_mask; right_mask] = Ok out ∧
    px out 0 0 = 1 ∧ px out 0 1 = 2.
Proof.
  destruct (combine_masks_last_write_wins wide_mask right_mask)
    as (out & Hout & _ & Hpx).
  - repeat constructor.
  - apply wide_covers_right.
  - exists out. split; [exact Hout|]. rewrite !Hpx.
    split; vm_compute; reflexivity.
Defined.

(** *** The program on the example trees *)

Section Examples.
Import TreeFS.

(** The end-to-end scenario: the sample goes to "valid", class [A] and
    the aggregate both hold two objects, the excluded class gets no
    directory, and the file of the sample is copied next to each mask. *)
Example end_to_end_scenario :
  let r := prepare scenario_tree in
  r.1 = Ok () ∧
  listdir (w_fs r.2) "out/png" = Ok ["all"; "A"] ∧
  stat (w_fs r.2) "out/png/A/valid/S1_ST_I06_masks.png"
    = Ok (File (Gray16 [[1; 0; 0]; [0; 2; 2]])) ∧
  stat (w_fs r.2) "out/png/all/valid/S1_ST_I06_masks.png"
    = Ok (File (Gray16 [[1; 0; 0]; [0; 2; 2]])) ∧
  listdir (w_fs r.2) "out/png/all/valid"
    = Ok ["S1_ST_I06_masks.png"; "S1_ST_I06.tif"].
Proof. vm_compute. repeat split. Qed.

(** Copying for the base name "S1": the two entries that start with it
    arrive in the destination with their contents; "s1.tif" does not. *)
Example copy_corresponding_files_example :
  let r := run (copy_corresponding_files "raw" "in" "S1") two_class_tree in
  r.1 = Ok () ∧
  listdir (w_fs r.2) "in" = Ok ["S1"; "S1.tif"; "S10.tif"] ∧
  stat (w_fs r.2) "in/S1.tif" = Ok (File (Bytes "raw image")) ∧
  stat (w_fs r.2) "in/S10.tif" = Ok (File (Bytes "longer name")) ∧
  listdir (w_fs r.2) "raw" = listdir two_class_tree "raw".
Proof. vm_compute. repeat split. Qed.

Example paths :
  path_join4 "out" "png" "all" "train" = "out/png/all/train" ∧
  path_join "out/" "x.tif" = "out/x.tif" ∧
  path_join "" "x.tif" = "x.tif" ∧
  path_join "out" "/x.tif" = "/x.tif" ∧
  basename "in/S1" = "S1" ∧ basename "in/S1/" = "" ∧ basename "S1" = "S1".
Proof. vm_compute. repeat split. Qed.

(** C1, on the code: with two classes of one object each, the aggregate
    written for the sample is the mask of the class listed last; the
    object of the first class is missing from it.  The union the claim
    asks for numbers the two objects 1 and 2. *)
Theorem process_masks_all_is_last_class :
  let r := prepare two_class_tree in
  r.1 = Ok () ∧
  stat (w_fs r.2) "out/png/A/train/S1_masks.png"
    = Ok (File (Gray16 [[1; 0]])) ∧
  stat (w_fs r.2) "out/png/B/train/S1_masks.png"
    = Ok (File (Gray16 [[0; 1]])) ∧
  stat (w_fs r.2) "out/png/all/train/S1_masks.png"
    = Ok (File (Gray16 [[0; 1]])) ∧
  combine_masks [left_mask; right_mask] = Ok [[1; 2]].
Proof. vm_compute. repeat split. Qed.

(** The second sample has no class directory, and still the run ends
    without an exception: the aggregate of that sample is written, from
    the masks loaded for the sample before it. *)
Lemma stale_masks_counterexample :
  let r := prepare stale_tree in
  listdir stale_tree "in/S2" = Ok [] ∧
  r.1 = Ok () ∧
  listdir (w_fs r.2) "in/S2" = Ok [] ∧
  stat (w_fs r.2) "out/png/all/train/S2_masks.png"
    = Ok (File (Gray16 [[1; 0]])).
Proof. vm_compute. repeat split. Qed.

(** The class loop takes every listed entry for a class: a plain file in
    the first sample, outside the excluded set, ends the run in the loop,
    where its listing raises, and not at the aggregate step. *)
Example file_in_first_sample :
  let r := prepare file_in_sample_tree in
  listdir file_in_sample_tree "in/S1" = Ok ["Unidentified"; "notes.txt"] ∧
  r.1 = Raise NotADirectoryError ∧
  w_log r.2 = [(INFO, "Created directory: out/png/all/train");
               (INFO, "Processing in/S1...");
               (INFO, "Skipping Unidentified...")].
Proof. vm_compute. repeat split. Qed.

Lemma split_data_partition_witness :
  ∃ data,
    split_data "in" "ST_I06" "ST_K07" (World split_tree [])
      = (Ok data, World split_tree []) ∧
    dict_get "valid" data = ["in/plate_ST_I06"; "in/ST_K07_ST_I06"] ∧
    dict_get "test" data = ["in/plate_ST_K07"] ∧
    dict_get "train" data = ["in/plate_A01"].
Proof.
  destruct (split_data_partition "in" "ST_I06" "ST_K07"
              ["plate_ST_I06"; "plate_ST_K07"; "plate_A01"; "ST_K07_ST_I06"]
              (World split_tree []))
    as (data & Hrun & Hvalid & Htest & Htrain & _).
  - vm_compute. reflexivity.
  - exists data. split; [exact Hrun|].
    rewrite Hvalid, Htest, Htrain. vm_compute. repeat split.
Defined.

Lemma copy_corresponding_files_prefix_witness :
  let r := run (copy_corresponding_files "raw" "in" "S1") two_class_tree in
  r.1 = Ok () ∧
  stat (w_fs r.2) "in/S1.tif" = Ok (File (Bytes "raw image")) ∧
  stat (w_fs r.2) "in/S10.tif" = Ok (File (Bytes "longer name")) ∧
  stat (w_fs r.2) "in/s1.tif" = Raise FileNotFoundError ∧
  w_log r.2 = [(INFO, "Copied corresponding file: S1.tif");
               (INFO, "Copied corresponding file: S10.tif")].
Proof.
  destruct (copy_corresponding_files_prefix "raw" "in" "S1"
              ["S1.tif"; "S10.tif"; "s1.tif"] (World two_class_tree []))
    as [Hrun _].
  - vm_compute. reflexivity.
  - intros r. unfold r, run. rewrite Hrun. vm_compute. repeat split.
Defined.

(** Three entries of the source directory start with "S1"; the second is
    a directory, on which [shutil.copy2] raises: one entry arrives, and
    the regular file listed after the directory is not copied. *)
Lemma copy_corresponding_files_directory_counterexample :
  let r := run (copy_corresponding_files "raw" "dst" "S1") copy_failure_tree in
  listdir copy_failure_tree "raw" = Ok ["S1.tif"; "S1_extra"; "S1_notes.txt"] ∧
  r.1 = Raise IsADirectoryError ∧
  listdir (w_fs r.2) "dst" = Ok ["S1.tif"] ∧
  stat (w_fs r.2) "dst/S1_notes.txt" = Raise FileNotFoundError.
Proof. vm_compute. repeat split. Qed.

Lemma load_mask_images_skips_unreadable_witness :
  ∃ w', load_mask_images "in/S1/B" (World two_class_tree [])
          = (Ok [right_mask], w') ∧
    w_fs w' = two_class_tree ∧
    w_log w' = [(WARNING, "Failed to read image: notes.txt")].
Proof.
  destruct (load_mask_images_skips_unreadable "in/S1/B"
              ["b.png"; "notes.txt"] (World two_class_tree []))
    as (images & w' & Hrun & -> & Hfs & Hlog & _).
  - vm_compute. reflexivity.
  - exists w'. split; [exact Hrun|]. split; [exact Hfs|].
    rewrite Hlog. vm_compute. reflexivity.
Defined.

Lemma process_masks_missing_input_witness :
  run (process_masks "absent" "out" "raw" "ST_I06" "ST_K07" "png"
         default_exclude_class) scenario_tree
  = (Ok (),
     World scenario_tree
       [(ERROR, "The input path absent does not exist.")]).
Proof.
  apply (process_masks_missing_input "absent" "out" "raw" "ST_I06" "ST_K07"
           "png" default_exclude_class (World scenario_tree [])).
  vm_compute. reflexivity.
Defined.

Lemma main_output_exists_witness :
  run (main (Args "in" "raw" "raw" "ST_I06" "ST_K07" "png")) scenario_tree
  = (Raise SystemExit,
     World scenario_tree [(ERROR, "The output path raw already exists.")]).
Proof.
  apply (main_output_exists (Args "in" "raw" "raw" "ST_I06" "ST_K07" "png")
           (World scenario_tree [])).
  vm_compute. reflexivity.
Defined.

Lemma process_masks_first_sample_unbound_witness :
  let r := prepare excluded_only_tree in
  r.1 = Raise UnboundLocalError ∧
  listdir (w_fs r.2) "out/png/all/train" = Ok [] ∧
  listdir (w_fs r.2) "out/png" = Ok ["all"].
Proof.
  pose proof (process_masks_first_sample_unbound "in" "out" "raw"
                "ST_I06" "ST_K07" "png" default_exclude_class
                "S1" ["S2"] ["Unidentified"] (World excluded_only_tree [])
                (run (create_directory "out/png/all/train")
                   excluded_only_tree).2) as Hrun.
  unfold prepare, run. rewrite Hrun.
  - vm_compute. repeat split.
  - vm_compute. reflexivity.
  - vm_compute. reflexivity.
  - vm_compute. reflexivity.
  - vm_compute. reflexivity.
  - repeat constructor.
Defined.

End Examples.

(** ** Further results *)

(** *** combine_masks on masks of any size *)

Lemma label_last masks : ∀ k mask object_id r c cur,
  masks !! k = Some mask → fg mask r c →
  (∀ j mj, masks !! j = Some mj → (k < j)%nat → ¬ fg mj r c) →
  label masks object_id r c cur = to_uint16 (object_id + Z.of_nat k).
Proof.
  induction masks as [|m0 rest IH]; intros k mask object_id r c cur Hk Hfg Hlater;
    [done|].
  destruct k as [|k]; simpl in *.
  - injection Hk as ->. rewrite decide_True by done.
    rewrite label_background; [f_equal; lia|].
    apply Forall_lookup. intros j mj Hj. apply (Hlater (S j)); [done|lia].
  - rewrite (IH k mask); [f_equal; lia|done|done|].
    intros j mj Hj Hlt. apply (Hlater (S j)); [done|lia].
Qed.

(** A pixel is covered by no mask, or there is a last mask covering it. *)
Lemma last_cover (masks : list image) r c :
  Forall (λ m, ¬ fg m r c) masks ∨
  ∃ k mask, masks !! k = Some mask ∧ fg mask r c ∧
    ∀ j mj, masks !! j = Some mj → (k < j)%nat → ¬ fg mj r c.
Proof.
  induction masks as [|m0 rest IH]; [by left|].
  destruct IH as [Hnone|(k & mask & Hk & Hfg & Hlater)].
  - destruct (decide (fg m0 r c)) as [H0|H0].
    + right. exists 0%nat, m0. split; [done|]. split; [done|].
      intros [|j] mj Hj Hlt; [lia|]. simpl in Hj.
      by eapply (Forall_lookup_1 _ _ _ _ Hnone).
    + left. by apply Forall_cons.
  - right. exists (S k), mask. split; [done|]. split; [done|].
    intros [|j] mj Hj Hlt; [lia|]. simpl in Hj. apply (Hlater j); [done|lia].
Qed.

Lemma combine_masks_fits first rest :
  Forall (fits (shape first).1 (shape first).2) (first :: rest) →
  ∃ out, combine_masks (first :: rest) = Ok out ∧
    dims (shape first).1 (shape first).2 out ∧
    ∀ r c, px out r c = label (first :: rest) 1 r c 0.
Proof.
  intros Hfit. unfold combine_masks.
  destruct (shape first) as [height width]. simpl in Hfit.
  destruct (combine_loop_spec height width (first :: rest)
              (zeros height width) 1 (dims_zeros _ _) Hfit)
    as (out & Hout & Hd & Hpx).
  exists out. split; [done|]. split; [done|].
  intros r c. by rewrite Hpx, px_zeros.
Qed.

Lemma to_uint16_small v : 0 ≤ v ≤ 65535 → to_uint16 v = v.
Proof. intros Hv. unfold to_uint16. apply Z.mod_small. lia. Qed.

(** X1: when every foreground pixel lies inside the shape of the first
    mask and there are at most 65535 masks (of any sizes), [combine_masks]
    returns an image of the first mask's shape in which a pixel holds the
    1-based position of the last mask whose foreground covers it, and 0
    when no mask covers it. *)
Theorem combine_masks_last_cover (first : image) (rest : list image) :
  let masks := first :: rest in
  Z.of_nat (length masks) ≤ 65535 →
  Forall (fits (shape first).1 (shape first).2) masks →
  ∃ out, combine_masks masks = Ok out ∧
    dims (shape first).1 (shape first).2 out ∧
    (∀ k mask r c, masks !! k = Some mask → fg mask r c →
       (∀ j mj, masks !! j = Some mj → (k < j)%nat → ¬ fg mj r c) →
       px out r c = Z.of_nat k + 1) ∧
    (∀ r c, Forall (λ mask, ¬ fg mask r c) masks → px out r c = 0).
Proof.
  intros masks Hlen Hfit.
  destruct (combine_masks_fits first rest Hfit) as (out & Hout & Hd & Hpx).
  exists out. split; [done|]. split; [done|]. split.
  - intros k mask r c Hk Hfg Hlater. rewrite Hpx.
    rewrite (label_last _ k mask) by done.
    pose proof (lookup_lt_Some _ _ _ Hk) as Hlt. unfold masks in *.
    rewrite to_uint16_small; lia.
  - intros r c Hnone. rewrite Hpx. by apply label_background.
Qed.

(** X2: under the same conditions the pixels other than 0 of the result
    are exactly the pixels that are foreground in some mask, and every
    value lies between 0 and the number of masks. *)
Theorem combine_masks_union (first : image) (rest : list image) :
  let masks := first :: rest in
  Z.of_nat (length masks) ≤ 65535 →
  Forall (fits (shape first).1 (shape first).2) masks →
  ∃ out, combine_masks masks = Ok out ∧
    (∀ r c, px out r c ≠ 0 ↔ ∃ mask, mask ∈ masks ∧ fg mask r c) ∧
    (∀ r c, 0 ≤ px out r c ≤ Z.of_nat (length masks)).
Proof.
  intros masks Hlen Hfit.
  destruct (combine_masks_fits first rest Hfit) as (out & Hout & _ & Hpx).
  exists out. split; [done|].
  assert (∀ r c,
    (px out r c = 0 ∧ Forall (λ m, ¬ fg m r c) masks) ∨
    (∃ k mask, masks !! k = Some mask ∧ fg mask r c
               ∧ px out r c = Z.of_nat k + 1)) as Hcases.
  { intros r c.
    destruct (last_cover masks r c) as [Hnone|(k & mask & Hk & Hfg & Hlater)].
    - left. split; [|done]. rewrite Hpx. by apply label_background.
    - right. exists k, mask. split; [done|]. split; [done|].
      rewrite Hpx, (label_last _ k mask) by done.
      pose proof (lookup_lt_Some _ _ _ Hk) as Hlt. unfold masks in *.
      rewrite to_uint16_small; lia. }
  split; intros r c.
  - destruct (Hcases r c) as [[H0 Hnone]|(k & mask & Hk & Hfg & Hv)].
    + split; [done|]. intros (mask & Hin & Hfg).
      by destruct (proj1 (Forall_forall _ _) Hnone mask Hin).
    + split; [|lia]. intros _. exists mask. split; [|done].
      by eapply list_elem_of_lookup_2.
  - destruct (Hcases r c) as [[H0 _]|(k & mask & Hk & _ & Hv)]; [lia|].
    pose proof (lookup_lt_Some _ _ _ Hk) as Hlt. unfold masks in *. lia.
Qed.

(** X4: a mask whose every foreground pixel is also foreground of a
    later mask leaves nothing in the result: its identifier occurs at no
    pixel. *)
Theorem combine_masks_covered_mask_vanishes (first : image)
    (rest : list image) (k : nat) (mask : image) :
  let masks := first :: rest in
  Z.of_nat (length masks) ≤ 65535 →
  Forall (fits (shape first).1 (shape first).2) masks →
  masks !! k = Some mask →
  (∀ r c, fg mask r c →
     ∃ j mj, (k < j)%nat ∧ masks !! j = Some mj ∧ fg mj r c) →
  ∃ out, combine_masks masks = Ok out ∧ ∀ r c, px out r c ≠ Z.of_nat k + 1.
Proof.
  intros masks Hlen Hfit Hk Hcovered.
  destruct (combine_masks_fits first rest Hfit) as (out & Hout & _ & Hpx).
  exists out. split; [done|]. intros r c Hv.
  destruct (last_cover masks r c) as [Hnone|(k' & mask' & Hk' & Hfg & Hlater)].
  - rewrite Hpx, label_background in Hv by done. lia.
  - rewrite Hpx, (label_last _ k' mask') in Hv by done.
    pose proof (lookup_lt_Some _ _ _ Hk') as Hlt. unfold masks in *.
    rewrite to_uint16_small in Hv by lia.
    assert (k' = k) as -> by lia. rewrite Hk in Hk'. injection Hk' as <-.
    destruct (Hcovered r c Hfg) as (j & mj & Hj & Hmj & Hfj).
    by apply (Hlater j mj).
Qed.

(** *** Indices outside the first mask *)

Lemma assign_at_outside h w combined mask v r c :
  fg mask r c → ¬ ((r < h)%nat ∧ (c < w)%nat) →
  assign_at h w combined (np_where_gt0 mask) v = Raise IndexError.
Proof.
  intros Hfg Hout. unfold assign_at.
  destruct (forallb _ _) eqn:E; [|done]. destruct Hout.
  apply Is_true_true_2, forallb_True in E.
  apply elem_of_np_where_gt0 in Hfg.
  pose proof (proj1 (Forall_forall _ _) E _ Hfg) as Hb. simpl in Hb.
  apply Is_true_true_1, andb_true_iff in Hb as [Hr Hc].
  split; by apply Nat.ltb_lt.
Qed.

Lemma assign_at_raises h w combined idx v e :
  assign_at h w combined idx v = Raise e → e = IndexError.
Proof. unfold assign_at. case_match; congruence. Qed.

Lemma combine_loop_outside h w masks : ∀ combined object_id,
  Exists (λ mask, ∃ r c, fg mask r c ∧ ¬ ((r < h)%nat ∧ (c < w)%nat)) masks →
  combine_loop h w masks combined object_id = Raise IndexError.
Proof.
  induction masks as [|mask rest IH]; intros combined object_id Hex.
  - by apply Exists_nil in Hex.
  - simpl.
    destruct (assign_at h w combined (np_where_gt0 mask) object_id)
      as [combined'|e] eqn:E; simpl.
    + apply Exists_cons in Hex as [(r & c & Hfg & Hout)|Hrest]; [|by apply IH].
      by rewrite (assign_at_outside h w combined mask object_id r c) in E.
    + by apply assign_at_raises in E as ->.
Qed.

(** X3: among at most 65535 masks, a foreground pixel outside the shape of
    the first mask, in any mask of the sequence, makes [combine_masks]
    raise IndexError. *)
Theorem combine_masks_outside_first_shape (first : image) (rest : list image)
    (mask : image) (r c : nat) :
  Z.of_nat (length (first :: rest)) ≤ 65535 →
  mask ∈ first :: rest →
  fg mask r c →
  ¬ ((r < (shape first).1)%nat ∧ (c < (shape first).2)%nat) →
  combine_masks (first :: rest) = Raise IndexError.
Proof.
  intros _ Hin Hfg Hout. unfold combine_masks.
  destruct (shape first) as [height width]. simpl in Hout.
  apply combine_loop_outside, Exists_exists. exists mask. eauto.
Qed.

(** *** The range of the buffer *)

Lemma to_uint16_range v : 0 ≤ to_uint16 v ≤ 65535.
Proof. unfold to_uint16. pose proof (Z.mod_pos_bound v 65536). lia. Qed.

Lemma uint16_image_zeros h w : uint16_image (zeros h w).
Proof. apply Forall_replicate, Forall_replicate. lia. Qed.

Lemma uint16_image_assign v idx : ∀ img,
  uint16_image img → uint16_image (foldl (set_px (to_uint16 v)) img idx).
Proof.
  induction idx as [|rc idx IH]; intros img Himg; [done|]. simpl.
  apply IH. unfold set_px. apply Forall_alter; [done|].
  intros row _ Hrow. apply Forall_insert; [done|]. apply to_uint16_range.
Qed.

Lemma uint16_image_loop h w masks : ∀ combined object_id out,
  uint16_image combined →
  combine_loop h w masks combined object_id = Ok out → uint16_image out.
Proof.
  induction masks as [|mask rest IH]; intros combined object_id out Hc; simpl.
  - by intros [= <-].
  - unfold assign_at. case_match; [|done]. simpl.
    apply IH. by apply uint16_image_assign.
Qed.

Lemma uint16_image_px img r c : uint16_image img → 0 ≤ px img r c ≤ 65535.
Proof.
  intros Himg. unfold px.
  destruct (img !! r) as [row|] eqn:Hr; simpl; [|lia].
  destruct (row !! c) as [v|] eqn:Hc; simpl; [|lia].
  pose proof (Forall_lookup_1 _ _ _ _ Himg Hr) as Hrow.
  apply (Forall_lookup_1 _ _ _ _ Hrow Hc).
Qed.

(** X5: every pixel of an image returned by [combine_masks] is a [uint16]
    value, whatever the number of masks. *)
Theorem combine_masks_uint16 (masks : list image) (out : image) :
  combine_masks masks = Ok out → ∀ r c, 0 ≤ px out r c ≤ 65535.
Proof.
  intros Hout r c. apply uint16_image_px.
  unfold combine_masks in Hout. destruct masks as [|first rest]; [done|].
  destruct (shape first) as [height width].
  eapply uint16_image_loop; [|exact Hout]. apply uint16_image_zeros.
Qed.

(** *** Only the sign of a pixel matters *)

Lemma image_ext h w (a b : image) :
  dims h w a → dims h w b → (∀ r c, px a r c = px b r c) → a = b.
Proof.
  intros [Hha Hwa] [Hhb Hwb] Hpx. apply list_eq. intros r.
  destruct (a !! r) as [ra|] eqn:Ha; destruct (b !! r) as [rb|] eqn:Hb.
  - f_equal. apply list_eq. intros c.
    pose proof (Forall_lookup_1 _ _ _ _ Hwa Ha) as Hla.
    pose proof (Forall_lookup_1 _ _ _ _ Hwb Hb) as Hlb.
    simpl in Hla, Hlb.
    specialize (Hpx r c). unfold px in Hpx. rewrite Ha, Hb in Hpx. simpl in Hpx.
    destruct (decide (c < w)%nat) as [Hc|Hc].
    + destruct (lookup_lt_is_Some_2 ra c) as [va Hva]; [lia|].
      destruct (lookup_lt_is_Some_2 rb c) as [vb Hvb]; [lia|].
      rewrite Hva, Hvb in *. simpl in Hpx. congruence.
    + rewrite !(proj2 (lookup_ge_None _ _)) by lia. done.
  - apply lookup_lt_Some in Ha. apply lookup_ge_None in Hb. lia.
  - apply lookup_lt_Some in Hb. apply lookup_ge_None in Ha. lia.
  - done.
Qed.

Lemma label_same_foreground masks masks' : ∀ object_id r c cur,
  Forall2 (λ m m', fg m r c ↔ fg m' r c) masks masks' →
  label masks object_id r c cur = label masks' object_id r c cur.
Proof.
  intros object_id r c cur H. revert object_id cur.
  induction H as [|m m' masks masks' Hm _ IH]; intros object_id cur; [done|].
  simpl. rewrite IH. f_equal. repeat case_decide; tauto.
Qed.

(** X6: [combine_masks] sees only which pixels are positive: two
    sequences of at most 65535 masks whose first masks have the same shape
    and whose masks have, position by position, the same foreground give
    the same image. *)
Theorem combine_masks_sign_only (first first' : image)
    (rest rest' : list image) :
  Z.of_nat (length (first :: rest)) ≤ 65535 →
  shape first = shape first' →
  Forall (fits (shape first).1 (shape first).2) (first :: rest) →
  Forall2 (λ m m', ∀ r c, fg m r c ↔ fg m' r c)
    (first :: rest) (first' :: rest') →
  ∃ out, combine_masks (first :: rest) = Ok out ∧
         combine_masks (first' :: rest') = Ok out.
Proof.
  intros _ Hshape Hfit Hsame.
  assert (Forall (fits (shape first').1 (shape first').2) (first' :: rest'))
    as Hfit'.
  { rewrite <- Hshape. clear Hshape.
    induction Hsame as [|m m' l l' Hm _ IH]; [done|].
    apply Forall_cons in Hfit as [Hf Hfit].
    apply Forall_cons. split; [|by apply IH].
    intros r c Hfg. by apply Hf, Hm. }
  destruct (combine_masks_fits first rest Hfit) as (out & Hout & Hd & Hpx).
  destruct (combine_masks_fits first' rest' Hfit')
    as (out' & Hout' & Hd' & Hpx').
  exists out. split; [done|]. rewrite Hout'. f_equal.
  rewrite <- Hshape in Hd'. eapply image_ext; [done|done|].
  intros r c. rewrite Hpx, Hpx'. symmetry. apply label_same_foreground.
  eapply Forall2_impl; [exact Hsame|]. simpl. intros m m' H. apply H.
Qed.

(** *** Paths *)

Lemma startswith_empty s : startswith s "" = true.
Proof. done. Qed.

Lemma contains_empty s : contains "" s = true.
Proof. by destruct s. Qed.

Lemma append_assoc (a b c : string) : (a +:+ b) +:+ c = a +:+ b +:+ c.
Proof.
  induction a as [|x a IH]; [done|].
  change (String x ((a +:+ b) +:+ c) = String x (a +:+ b +:+ c)).
  by rewrite IH.
Qed.

Lemma contains_app_r pat a b : contains pat b = true → contains pat (a +:+ b) = true.
Proof.
  rewrite !contains_spec. intros (x & y & ->). exists (a +:+ x), y.
  by rewrite append_assoc.
Qed.

Lemma contains_sep_first s : contains "/" (String "/" s) = true.
Proof. reflexivity. Qed.

Lemma basename_plain name : contains "/" name = false → basename name = name.
Proof.
  destruct name as [|c name]; [done|]. intros H. simpl in *.
  apply orb_false_iff in H as [Hc Hrest]. rewrite Hrest.
  apply andb_false_iff in Hc as [Hc|Hc]; [|done].
  apply bool_decide_eq_false in Hc. by rewrite bool_decide_false by congruence.
Qed.

Lemma basename_after_sep a name :
  contains "/" name = false → basename (a +:+ "/" +:+ name) = name.
Proof.
  intros Hname. induction a as [|c a IH].
  - change (basename (String "/" name) = name). cbn [basename].
    rewrite Hname. by rewrite bool_decide_true.
  - change (basename (String c (a +:+ "/" +:+ name)) = name). cbn [basename].
    rewrite contains_app_r; [done|]. apply contains_sep_first.
Qed.

Lemma endswith_sep_inv a : endswith_sep a = true → ∃ a', a = a' +:+ "/".
Proof.
  unfold endswith_sep. induction a as [|c a IH]; [done|]. simpl.
  destruct a as [|c' a].
  - simpl. intros ->%bool_decide_eq_true_1%(inj Some). by exists "".
  - simpl in *. intros H. destruct (IH H) as [a' ->]. by exists (String c a').
Qed.

Lemma basename_path_join dir name :
  contains "/" name = false → basename (path_join dir name) = name.
Proof.
  intros Hname. unfold path_join.
  assert (startswith name "/" = false) as ->.
  { destruct name as [|c name]; [done|]. simpl in *.
    by apply orb_false_iff in Hname as [-> _]. }
  destruct (bool_decide (dir = "")) eqn:Hd; simpl.
  - apply bool_decide_eq_true_1 in Hd as ->. by apply basename_plain.
  - destruct (endswith_sep dir) eqn:He.
    + apply endswith_sep_inv in He as [a' ->].
      rewrite append_assoc. by apply basename_after_sep.
    + by apply basename_after_sep.
Qed.

(** *** The dictionary of split_data *)

Lemma dict_append_keys k v (data : dict) :
  (dict_append k v data).*1
  = if decide (k ∈ data.*1) then data.*1 else data.*1 ++ [k].
Proof.
  induction data as [|[k0 vs] data IH]; [done|]. cbn [dict_append].
  destruct (decide (k = k0)) as [->|Hne]; rewrite !fmap_cons; cbn [fst].
  - rewrite decide_True; [done|]. apply elem_of_cons. by left.
  - rewrite IH. destruct (decide (k ∈ data.*1)) as [Hin|Hout].
    + rewrite decide_True; [done|]. apply elem_of_cons. by right.
    + rewrite decide_False; [done|]. rewrite not_elem_of_cons. done.
Qed.

Lemma dict_append_nonempty k v (data : dict) :
  Forall (λ kv, kv.2 ≠ []) data →
  Forall (λ kv, kv.2 ≠ []) (dict_append k v data).
Proof.
  induction 1 as [|[k0 vs] data Hvs Hdata IH]; cbn [dict_append].
  - constructor; [|constructor]. simpl. done.
  - case_decide.
    + constructor; [|done]. simpl. by destruct vs.
    + constructor; done.
Qed.

Section Keys.
Context (dir vp tp : string).

Lemma split_keys names : ∀ (data0 : dict),
  NoDup data0.*1 → Forall (λ kv, kv.2 ≠ []) data0 →
  let data := foldl (split_step dir vp tp) data0 names in
  NoDup data.*1 ∧
  (∀ key, key ∈ data.*1
          ↔ key ∈ data0.*1 ∨ ∃ n, n ∈ names ∧ bucket vp tp n = key) ∧
  Forall (λ kv, kv.2 ≠ []) data ∧
  (data0 ≠ [] → head data.*1 = head data0.*1).
Proof.
  induction names as [|n names IH]; intros data0 Hnd Hne; simpl.
  - split; [done|]. split; [|done]. intros key. split; [auto|].
    intros [?|(n & Hn & _)]; [done|]. by apply elem_of_nil in Hn.
  - rewrite split_step_bucket.
    set (data1 := dict_append (bucket vp tp n) (path_join dir n) data0).
    assert (NoDup data1.*1) as Hnd1.
    { unfold data1. rewrite dict_append_keys. case_decide; [done|].
      apply NoDup_app. split; [done|]. split; [|apply NoDup_singleton].
      intros x Hx ->%list_elem_of_singleton. done. }
    assert (Forall (λ kv, kv.2 ≠ []) data1) as Hne1
      by by apply dict_append_nonempty.
    destruct (IH data1 Hnd1 Hne1) as (H1 & H2 & H3 & H4).
    split; [done|]. split; [|split; [done|]].
    + intros key. rewrite H2. unfold data1. rewrite dict_append_keys.
      setoid_rewrite elem_of_cons. split.
      * intros [Hk|(m & Hm & Hb)]; [|eauto].
        case_decide; [auto|]. apply elem_of_app in Hk as [?|Hk]; [auto|].
        apply list_elem_of_singleton in Hk as ->. eauto.
      * intros [Hk|(m & [->|Hm] & Hb)]; [| |eauto].
        -- left. case_decide; [done|]. apply elem_of_app. auto.
        -- left. subst key. case_decide; [done|].
           apply elem_of_app. right. by apply list_elem_of_singleton.
    + intros Hd0. rewrite H4.
      * unfold data1. rewrite dict_append_keys. case_decide; [done|].
        destruct data0; [done|]. done.
      * unfold data1. destruct data0 as [|[]]; [done|]. simpl.
        by case_decide.
Qed.

End Keys.

(** X10: the dictionary returned by [split_data] has each of its keys
    once, has a key exactly for the buckets some listed name falls into
    (no key with an empty list), and its first key is the bucket of the
    first name listed. *)
Theorem split_data_keys {FS} `{!OS FS} (dir vp tp : string)
    (names : list string) (w : world FS) :
  os_listdir (w_fs w) dir = Ok names →
  ∃ data, split_data dir vp tp w = (Ok data, w) ∧
    NoDup data.*1 ∧
    (∀ key, key ∈ data.*1 ↔ ∃ n, n ∈ names ∧ bucket vp tp n = key) ∧
    Forall (λ kv, kv.2 ≠ []) data ∧
    head data.*1 = bucket vp tp <$> head names.
Proof.
  intros Hls. eexists. split.
  { unfold split_data. erewrite bind_ok; [reflexivity|].
    unfold listdir. by rewrite Hls. }
  destruct (split_keys dir vp tp names [] (NoDup_nil_2) (Forall_nil_2 _))
    as (H1 & H2 & H3 & _).
  split; [done|]. split; [|split; [done|]].
  - intros key. rewrite H2. split; [|auto].
    intros [Hk|?]; [|done]. by apply elem_of_nil in Hk.
  - destruct names as [|n names]; [done|]. cbn [foldl head fmap option_fmap option_map].
    rewrite split_step_bucket. cbn [dict_append].
    destruct (split_keys dir vp tp names
                [(bucket vp tp n, [path_join dir n])])
      as (_ & _ & _ & ->); try done.
    + apply NoDup_singleton.
    + by repeat constructor.
Qed.

(** X11: an empty pattern is contained in every name: with an empty
    validation pattern every entry goes to "valid", and with an empty test
    pattern no entry goes to "train". *)
Theorem split_data_empty_pattern {FS} `{!OS FS} (dir vp tp : string)
    (names : list string) (w : world FS) :
  os_listdir (w_fs w) dir = Ok names →
  ∃ data, split_data dir vp tp w = (Ok data, w) ∧
    (vp = "" →
       dict_get "valid" data = path_join dir <$> names ∧
       dict_get "test" data = [] ∧ dict_get "train" data = []) ∧
    (tp = "" → dict_get "train" data = []).
Proof.
  intros Hls. eexists. split.
  { unfold split_data. erewrite bind_ok; [reflexivity|].
    unfold listdir. by rewrite Hls. }
  clear Hls. rewrite !dict_get_split. simpl. split.
  - intros ->.
    assert (∀ n, bucket "" tp n = "valid") as Hb
      by (intros n; unfold bucket; by rewrite contains_empty).
    repeat split.
    + f_equal. induction names as [|n names IH]; [done|].
      rewrite filter_cons. rewrite decide_True by apply Hb. by rewrite IH.
    + induction names as [|n names IH]; [done|].
      rewrite filter_cons. rewrite decide_False; [done|]. by rewrite Hb.
    + induction names as [|n names IH]; [done|].
      rewrite filter_cons. rewrite decide_False; [done|]. by rewrite Hb.
  - intros ->. induction names as [|n names IH]; [done|].
    rewrite filter_cons. rewrite decide_False; [done|].
    unfold bucket. rewrite contains_empty. by case_match.
Qed.

(** X12: for listed names without a separator, the base names of the
    paths stored in a bucket are the listed names of that bucket, in
    listing order: [os.path.basename] undoes [os.path.join]. *)
Theorem split_data_basenames {FS} `{!OS FS} (dir vp tp : string)
    (names : list string) (w : world FS) :
  os_listdir (w_fs w) dir = Ok names →
  Forall (λ n, contains "/" n = false) names →
  ∃ data, split_data dir vp tp w = (Ok data, w) ∧
    ∀ key, basename <$> dict_get key data
           = filter (λ n, bucket vp tp n = key) names.
Proof.
  intros Hls Hplain. eexists. split.
  { unfold split_data. erewrite bind_ok; [reflexivity|].
    unfold listdir. by rewrite Hls. }
  intros key. rewrite dict_get_split. simpl. rewrite <- list_fmap_compose.
  clear Hls. induction Hplain as [|n names Hn _ IH]; [done|].
  rewrite filter_cons. case_decide; [|done].
  cbn [fmap list_fmap]. rewrite IH. f_equal. simpl.
  by apply basename_path_join.
Qed.

Section Loops.
Context {FS : Type} `{!OS FS}.

Lemma for_each_app {S A} (body : S → A → M FS S) l1 l2 s (w : world FS) :
  for_each body s (l1 ++ l2) w
  = (for_each body s l1 ≫= λ s', for_each body s' l2) w.
Proof.
  revert s w. induction l1 as [|x l1 IH]; intros s w; [done|].
  rewrite <- app_comm_cons. cbn [for_each]. unfold mbind, M_bind in *.
  destruct (body s x w) as [[s'|e] w']; [apply IH|done].
Qed.

(** *** What is added to the log *)

Lemma appends_same {A} P (m : M FS A) :
  (∀ w r w', m w = (r, w') → w_log w' = w_log w) → appends P m.
Proof.
  intros Hm w r w' Hrun. exists []. rewrite app_nil_r. eauto.
Qed.

Lemma appends_mret {A} P (a : A) : appends (FS:=FS) P (mret a).
Proof. apply appends_same. by intros w r w' [= _ <-]. Qed.

Lemma appends_raise {A} P e : appends (FS:=FS) (A:=A) P (raise e).
Proof. apply appends_same. by intros w r w' [= _ <-]. Qed.

Lemma appends_lift_res {A} P (x : res A) : appends (FS:=FS) P (lift_res x).
Proof. apply appends_same. by intros w r w' [= _ <-]. Qed.

Lemma appends_logging (P : level * string → Prop) lvl msg :
  P (lvl, msg) → appends (FS:=FS) P (logging lvl msg).
Proof.
  intros HP w r w' [= _ <-]. exists [(lvl, msg)]. split; [done|].
  by repeat constructor.
Qed.

Lemma appends_bind {A B} P (m : M FS A) (f : A → M FS B) :
  appends P m → (∀ a, appends P (f a)) → appends P (m ≫= f).
Proof.
  intros Hm Hf w r w' Hrun. unfold mbind, M_bind in Hrun.
  destruct (m w) as [[a|e] w1] eqn:E.
  - destruct (Hm _ _ _ E) as (x1 & Hx1 & HP1).
    destruct (Hf a _ _ _ Hrun) as (x2 & Hx2 & HP2).
    exists (x1 ++ x2). rewrite Hx2, Hx1, app_assoc. split; [done|].
    by apply Forall_app.
  - injection Hrun as <- <-. by apply (Hm _ _ _ E).
Qed.

Lemma appends_for_each {S A} P (body : S → A → M FS S) l : ∀ s,
  (∀ s x, appends P (body s x)) → appends P (for_each body s l).
Proof.
  induction l as [|x l IH]; intros s Hbody; simpl.
  - apply appends_mret.
  - apply appends_bind; [apply Hbody|]. intros s'. by apply IH.
Qed.

Lemma appends_path_exists P p : appends P (path_exists p).
Proof. apply appends_same. by intros w r w' [= _ <-]. Qed.

Lemma appends_listdir P p : appends P (listdir p).
Proof. apply appends_same. by intros w r w' [= _ <-]. Qed.

Lemma appends_imread P p : appends P (imread_grayscale p).
Proof. apply appends_same. by intros w r w' [= _ <-]. Qed.

Lemma appends_makedirs P p : appends P (makedirs p).
Proof.
  apply appends_same. unfold makedirs. intros w r w'.
  destruct (os_makedirs _ _). by intros [= _ <-].
Qed.

Lemma appends_copy2 P src dst : appends P (copy2 src dst).
Proof.
  apply appends_same. unfold copy2. intros w r w'.
  destruct (shutil_copy2 _ _ _). by intros [= _ <-].
Qed.

Lemma appends_imwrite P p img : appends P (imwrite p img).
Proof.
  apply appends_same. unfold imwrite. intros w r w'.
  destruct (cv2_imwrite _ _ _). by intros [= _ <-].
Qed.

Lemma quiet_info msg : quiet (INFO, msg).
Proof. by left. Qed.

Lemma quiet_warning msg : quiet (WARNING, msg).
Proof. by right. Qed.

Ltac quiet_with known :=
  repeat first
    [ known
    | apply appends_mret | apply appends_raise | apply appends_lift_res
    | apply appends_path_exists | apply appends_listdir
    | apply appends_imread | apply appends_makedirs
    | apply appends_copy2 | apply appends_imwrite
    | apply appends_logging; (apply quiet_info || apply quiet_warning)
    | apply appends_bind; [|intros ?]
    | apply appends_for_each; intros ? ? ].

Lemma quiet_load_mask_images folder : appends quiet (load_mask_images folder).
Proof.
  unfold load_mask_images. quiet_with fail. unfold load_step. quiet_with fail.
  case_match; quiet_with fail.
Qed.

Lemma quiet_copy_corresponding_files src dst base :
  appends quiet (copy_corresponding_files src dst base).
Proof.
  unfold copy_corresponding_files. quiet_with fail. unfold copy_step.
  case_match; [unfold copy_file|]; quiet_with fail.
Qed.

Lemma quiet_create_directory p : appends quiet (create_directory p).
Proof.
  unfold create_directory. quiet_with fail. case_match; quiet_with fail.
Qed.

Ltac quiet_calls :=
  first [ apply quiet_load_mask_images
        | apply quiet_copy_corresponding_files
        | apply quiet_create_directory ].

Lemma quiet_class_step out cdir fmt exclude split base dirpath l c :
  appends quiet (class_step out cdir fmt exclude split base dirpath l c).
Proof. unfold class_step. case_match; quiet_with quiet_calls. Qed.

Lemma quiet_sample_step out cdir fmt exclude split bound dirpath :
  appends quiet (sample_step out cdir fmt exclude split bound dirpath).
Proof.
  unfold sample_step.
  quiet_with ltac:(first [quiet_calls | apply quiet_class_step]).
  case_match; quiet_with quiet_calls.
Qed.

Lemma quiet_process_splits out cdir fmt exclude bound data :
  appends quiet (process_splits out cdir fmt exclude bound data).
Proof.
  unfold process_splits. apply appends_for_each. intros b [split files].
  apply appends_for_each. intros b' dirpath. apply quiet_sample_step.
Qed.

(** X16: [process_masks] only adds to the log.  When the input root
    exists, every record it adds is an INFO or a WARNING, also when the run
    ends in an exception; when the root does not exist it adds the one
    ERROR record. *)
Theorem process_masks_log
    (input_path output_dir corresponding_files_dir : string)
    (val_pattern test_pattern format : string) (exclude_class : list string)
    (w w' : world FS) (r : res ()) :
  process_masks input_path output_dir corresponding_files_dir
    val_pattern test_pattern format exclude_class w = (r, w') →
  ∃ extra, w_log w' = w_log w ++ extra ∧
    (os_path_exists (w_fs w) input_path = true →
       Forall (λ rec, rec.1 = INFO ∨ rec.1 = WARNING) extra) ∧
    (os_path_exists (w_fs w) input_path = false →
       extra = [(ERROR, "The input path " +:+ input_path
                          +:+ " does not exist.")]).
Proof.
  unfold process_masks. unfold mbind at 1, M_bind at 1, path_exists at 1.
  destruct (os_path_exists (w_fs w) input_path) eqn:Hex; cbn [negb].
  - intros Hrun.
    assert (appends quiet
              (data ← split_data input_path val_pattern test_pattern;
               process_splits output_dir corresponding_files_dir format
                 exclude_class None data;; mret ())) as Hq.
    { unfold split_data. quiet_with ltac:(apply quiet_process_splits). }
    destruct (Hq _ _ _ Hrun) as (extra & Hlog & Hquiet).
    exists extra. split; [done|]. split; [done|]. done.
  - intros [= _ <-]. eexists. split; [reflexivity|]. split; done.
Qed.

End Loops.

Section Aborts.
Context {FS : Type} `{!OS FS}.

(** *** Every file is loaded or reported *)

Lemma omap_filter_length {A B} (f : A → option B) (l : list A) :
  (length (omap f l) + length (filter (λ x, f x = None) l) = length l)%nat.
Proof.
  induction l as [|x l IH]; [done|].
  rewrite filter_cons. cbn [omap list_omap].
  case_decide as Hx.
  - rewrite Hx. simpl. lia.
  - destruct (f x); [simpl; lia|done].
Qed.

(** X7: [load_mask_images] accounts for every entry of the directory: the
    images returned and the warnings logged add up to the number of
    entries, and nothing but warnings is logged. *)
Theorem load_mask_images_accounts (folder : string) (names : list string)
    (w : world FS) :
  os_listdir (w_fs w) folder = Ok names →
  ∃ images extra,
    load_mask_images folder w
      = (Ok images, World (w_fs w) (w_log w ++ extra)) ∧
    (length images + length extra = length names)%nat ∧
    Forall (λ rec, rec.1 = WARNING) extra.
Proof.
  intros Hls. destruct w as [fs log]. simpl in *. eexists _, _. split.
  { unfold load_mask_images.
    erewrite bind_ok; [|unfold listdir; simpl; by rewrite Hls].
    apply load_loop. }
  simpl. rewrite length_fmap. split; [apply omap_filter_length|].
  apply Forall_fmap, Forall_forall. done.
Qed.

(** X8: [load_mask_images] never changes the file system, and the only
    exception it raises is the one of listing the directory, with the log
    untouched. *)
Theorem load_mask_images_reads_only (folder : string) (w w' : world FS)
    (r : res (list image)) :
  load_mask_images folder w = (r, w') →
  w_fs w' = w_fs w ∧
  (∀ e, r = Raise e → os_listdir (w_fs w) folder = Raise e ∧ w' = w).
Proof.
  unfold load_mask_images, mbind, M_bind, listdir.
  destruct (os_listdir (w_fs w) folder) as [names|e] eqn:Hls.
  - destruct w as [fs log]. rewrite load_loop. by intros [= <- <-].
  - intros [= <- <-]. split; [done|]. by intros e' [= <-].
Qed.

(** *** A copy that fails *)

Lemma copy_files_app src dst l1 l2 (w : world FS) :
  copy_files src dst (l1 ++ l2) w
  = (copy_files src dst l1 ≫= λ _, copy_files src dst l2) w.
Proof.
  unfold copy_files. rewrite for_each_app. unfold mbind, M_bind.
  by destruct (for_each _ _ l1 w) as [[[]|e] w1].
Qed.

(** X9: when the copy of a matching entry raises, the exception leaves
    [copy_corresponding_files] at once: the matching entries listed before
    it have been copied, no record is logged for the failed one, and the
    entries after it are not tried. *)
Theorem copy_corresponding_files_stops (src dst base : string)
    (before after : list string) (file : string) (e : exn)
    (w w1 : world FS) (fs2 : FS) :
  os_listdir (w_fs w) src = Ok (before ++ file :: after) →
  startswith file base = true →
  copy_files src dst (filter (λ f, startswith f base = true) before) w
    = (Ok (), w1) →
  shutil_copy2 (w_fs w1) (path_join src file) (path_join dst file)
    = (Raise e, fs2) →
  copy_corresponding_files src dst base w
  = (Raise e, World fs2 (w_log w1)).
Proof.
  intros Hls Hmatch Hbefore Hfail. unfold copy_corresponding_files.
  erewrite bind_ok; [|unfold listdir; by rewrite Hls].
  rewrite copy_loop_filter, filter_app, filter_cons.
  rewrite decide_True by done. rewrite copy_files_app.
  erewrite bind_ok; [|exact Hbefore].
  unfold copy_files. rewrite for_each_cons. apply bind_raise.
  unfold copy_file. apply bind_raise. unfold copy2. by rewrite Hfail.
Qed.

(** *** Input roots without samples *)

(** X13: an input root that exists but lists nothing makes [process_masks]
    return without any effect; one that cannot be listed makes it raise
    the listing's exception, before anything is written or logged. *)
Theorem process_masks_nothing_to_do
    (input_path output_dir corresponding_files_dir : string)
    (val_pattern test_pattern format : string) (exclude_class : list string)
    (w : world FS) :
  os_path_exists (w_fs w) input_path = true →
  (os_listdir (w_fs w) input_path = Ok [] →
     process_masks input_path output_dir corresponding_files_dir
       val_pattern test_pattern format exclude_class w = (Ok (), w)) ∧
  (∀ e, os_listdir (w_fs w) input_path = Raise e →
     process_masks input_path output_dir corresponding_files_dir
       val_pattern test_pattern format exclude_class w = (Raise e, w)).
Proof.
  intros Hex. split.
  - intros Hls. unfold process_masks.
    erewrite bind_ok; [|unfold path_exists; by rewrite Hex]. simpl.
    erewrite bind_ok.
    2:{ unfold split_data. erewrite bind_ok; [reflexivity|].
        unfold listdir. by rewrite Hls. }
    done.
  - intros e Hls. unfold process_masks.
    erewrite bind_ok; [|unfold path_exists; by rewrite Hex]. simpl.
    apply bind_raise. unfold split_data. apply bind_raise.
    unfold listdir. by rewrite Hls.
Qed.

(** *** The first sample stops the run *)

Context (output_dir corresponding_files_dir format : string).
Context (exclude_class : list string).

Lemma process_masks_first_sample
    input_path val_pattern test_pattern first rest
    (w w' : world FS) (e : exn) :
  os_path_exists (w_fs w) input_path = true →
  os_listdir (w_fs w) input_path = Ok (first :: rest) →
  sample_step output_dir corresponding_files_dir format exclude_class
    (bucket val_pattern test_pattern first) None
    (path_join input_path first) w = (Raise e, w') →
  process_masks input_path output_dir corresponding_files_dir
    val_pattern test_pattern format exclude_class w = (Raise e, w').
Proof.
  intros Hex Hls Hstep. unfold process_masks.
  erewrite bind_ok; [|unfold path_exists; by rewrite Hex]. simpl.
  erewrite bind_ok.
  2:{ unfold split_data. erewrite bind_ok; [reflexivity|].
      unfold listdir. by rewrite Hls. }
  cbn [foldl]. rewrite split_step_bucket. cbn [dict_append].
  destruct (split_first input_path val_pattern test_pattern rest
              (bucket val_pattern test_pattern first)
              (path_join input_path first) [] []) as (ps & d & ->).
  apply bind_raise. unfold process_splits. rewrite for_each_cons.
  apply bind_raise. rewrite for_each_cons. by apply bind_raise.
Qed.

Lemma load_loop_none folder (fs : FS) names : ∀ images log,
  Forall (λ f, cv2_imread_grayscale fs (path_join folder f) = None) names →
  for_each (load_step folder) images names (World fs log)
  = (Ok images,
     World fs (log ++ ((λ f, (WARNING, "Failed to read image: " +:+ f))
                       <$> names))).
Proof.
  induction names as [|f names IH]; intros images log Hnone.
  - simpl. by rewrite app_nil_r.
  - apply Forall_cons in Hnone as [Hf Hnone]. rewrite for_each_cons.
    erewrite bind_ok; [|by rewrite load_step_run, Hf].
    rewrite IH by done. by rewrite <- app_assoc.
Qed.

Lemma class_step_no_masks split_name filename_base dirpath l c names
    (w : world FS) :
  c ∉ exclude_class →
  os_listdir (w_fs w) (path_join dirpath c) = Ok names →
  Forall (λ f, cv2_imread_grayscale (w_fs w)
                 (path_join (path_join dirpath c) f) = None) names →
  class_step output_dir corresponding_files_dir format exclude_class
    split_name filename_base dirpath l c w
  = (Raise IndexError,
     World (w_fs w)
       (w_log w ++ ((λ f, (WARNING, "Failed to read image: " +:+ f))
                    <$> names))).
Proof.
  intros Hc Hls Hnone. destruct w as [fs log]. simpl in *.
  unfold class_step. rewrite bool_decide_false by done.
  erewrite bind_ok.
  2:{ unfold load_mask_images.
      erewrite bind_ok; [|unfold listdir; simpl; by rewrite Hls].
      by apply load_loop_none. }
  by apply bind_raise.
Qed.

End Aborts.

(** X14: when the first class to process of the first sample holds no
    file that decodes (an empty class directory included), [process_masks]
    raises IndexError from [combine_masks]: only the "all" directory of the
    sample's split has been created, and the run ends there. *)
Theorem process_masks_class_without_masks {FS} `{!OS FS}
    (input_path output_dir corresponding_files_dir : string)
    (val_pattern test_pattern format : string) (exclude_class : list string)
    (first : string) (rest skipped more names : list string) (c : string)
    (w w1 : world FS) :
  os_path_exists (w_fs w) input_path = true →
  os_listdir (w_fs w) input_path = Ok (first :: rest) →
  let split_name := bucket val_pattern test_pattern first in
  let dirpath := path_join input_path first in
  create_directory (path_join4 output_dir format "all" split_name) w
    = (Ok (), w1) →
  os_listdir (w_fs w1) dirpath = Ok (skipped ++ c :: more) →
  Forall (λ s, s ∈ exclude_class) skipped →
  c ∉ exclude_class →
  os_listdir (w_fs w1) (path_join dirpath c) = Ok names →
  Forall (λ f, cv2_imread_grayscale (w_fs w1)
                 (path_join (path_join dirpath c) f) = None) names →
  process_masks input_path output_dir corresponding_files_dir
    val_pattern test_pattern format exclude_class w
  = (Raise IndexError,
     World (w_fs w1)
       (w_log w1 ++ (INFO, "Processing " +:+ dirpath +:+ "...")
          :: ((λ s, (INFO, "Skipping " +:+ s +:+ "...")) <$> skipped)
          ++ ((λ f, (WARNING, "Failed to read image: " +:+ f)) <$> names))).
Proof.
  intros Hex Hls split_name dirpath Hmk Hcls Hskip Hc Hnames Hnone.
  apply (process_masks_first_sample _ _ _ _ _ _ _ first rest); [done|done|].
  fold split_name. fold dirpath. unfold sample_step.
  erewrite bind_ok; [|exact Hmk].
  erewrite bind_ok; [|reflexivity].
  erewrite bind_ok; [|unfold listdir; simpl; by rewrite Hcls].
  apply bind_raise. rewrite for_each_app.
  erewrite bind_ok; [|by apply skip_classes].
  rewrite for_each_cons. apply bind_raise.
  erewrite class_step_no_masks; [|done|exact Hnames|exact Hnone].
  simpl. by rewrite <- !app_assoc.
Qed.

(** X15: when the first entry of the input root cannot be listed (a
    plain file among the samples, say), [process_masks] raises the
    listing's exception after it has created the "all" directory of the
    entry's split; no sample is processed. *)
Theorem process_masks_unlistable_sample {FS} `{!OS FS}
    (input_path output_dir corresponding_files_dir : string)
    (val_pattern test_pattern format : string) (exclude_class : list string)
    (first : string) (rest : list string) (e : exn) (w w1 : world FS) :
  os_path_exists (w_fs w) input_path = true →
  os_listdir (w_fs w) input_path = Ok (first :: rest) →
  let split_name := bucket val_pattern test_pattern first in
  let dirpath := path_join input_path first in
  create_directory (path_join4 output_dir format "all" split_name) w
    = (Ok (), w1) →
  os_listdir (w_fs w1) dirpath = Raise e →
  process_masks input_path output_dir corresponding_files_dir
    val_pattern test_pattern format exclude_class w
  = (Raise e,
     World (w_fs w1)
       (w_log w1 ++ [(INFO, "Processing " +:+ dirpath +:+ "...")])).
Proof.
  intros Hex Hls split_name dirpath Hmk Hcls.
  apply (process_masks_first_sample _ _ _ _ _ _ _ first rest); [done|done|].
  fold split_name. fold dirpath. unfold sample_step.
  erewrite bind_ok; [|exact Hmk].
  erewrite bind_ok; [|reflexivity].
  apply bind_raise. unfold listdir. simpl. by rewrite Hcls.
Qed.

(** *** Masks left over from an earlier sample *)

(** X18: when [mask_images] is already bound and a sample has no class
    outside the excluded set, the step for that sample raises nothing of
    its own: it combines the masks left over from the earlier sample and
    writes the result as the aggregate of this sample, then copies the
    sample's files; the binding stays as it was. *)
Theorem sample_step_reuses_masks {FS} `{!OS FS}
    (output_dir corresponding_files_dir format : string)
    (exclude_class : list string) (split_name dirpath : string)
    (images : list image) (aggregate : image) (classes : list string)
    (flag : bool) (w w1 w3 : world FS) (fs2 : FS) :
  let all_dir := path_join4 output_dir format "all" split_name in
  let save_filepath :=
    path_join all_dir (masks_filename (basename dirpath) format) in
  create_directory all_dir w = (Ok (), w1) →
  os_listdir (w_fs w1) dirpath = Ok classes →
  Forall (λ c, c ∈ exclude_class) classes →
  combine_masks images = Ok aggregate →
  cv2_imwrite (w_fs w1) save_filepath aggregate = (Ok flag, fs2) →
  copy_corresponding_files corresponding_files_dir all_dir (basename dirpath)
    (World fs2
       (w_log w1 ++ (INFO, "Processing " +:+ dirpath +:+ "...")
          :: ((λ c, (INFO, "Skipping " +:+ c +:+ "...")) <$> classes)
          ++ [(INFO, "Combined mask image saved as " +:+ save_filepath)]))
    = (Ok (), w3) →
  sample_step output_dir corresponding_files_dir format exclude_class
    split_name (Some images) dirpath w
  = (Ok (Some images), w3).
Proof.
  intros all_dir save_filepath Hmk Hls Hall Hagg Hwrite Hcopy.
  unfold sample_step. fold all_dir.
  erewrite bind_ok; [|exact Hmk].
  erewrite bind_ok; [|reflexivity].
  erewrite bind_ok; [|unfold listdir; simpl; by rewrite Hls].
  erewrite bind_ok; [|by apply skip_classes].
  cbn [mask_images]. rewrite Hagg.
  erewrite bind_ok; [|reflexivity]. fold save_filepath.
  erewrite bind_ok; [|unfold imwrite; simpl; by rewrite Hwrite].
  erewrite bind_ok; [|reflexivity].
  erewrite bind_ok; [reflexivity|].
  simpl. rewrite <- Hcopy. do 2 f_equal. by rewrite <- !app_assoc.
Qed.

(** *** train.py *)

(** X17: for every command line the parser accepts, the block of train.py
    that starts the training raises AttributeError when it reads
    [args.output_path], an option the parser does not define: [main] is
    never called, nothing is printed and the file system is untouched. *)
Theorem train_main_block_attribute_error {FS} `{!OS FS}
    (main : Train.namespace → M FS ())
    (train_dir valid_dir : string) (experiments_dir : option string)
    (experiment_name : string) (w : world FS) (printed : list string) :
  Train.main_block main
    (Train.parse_args train_dir valid_dir experiments_dir experiment_name)
    w printed
  = (inl Train.AttributeError, w, printed).
Proof. reflexivity. Qed.

(** *** The further results on concrete inputs *)

Lemma fits_wide_row (mask : image) :
  mask ∈ [wide_mask; small_mask; right_mask; left_mask; dim_mask] →
  fits 1 2 mask.
Proof.
  intros Hin r c Hfg. rewrite !elem_of_cons in Hin.
  destruct Hin as [-> | [-> | [-> | [-> | [-> | Hin]]]]];
    [ | | | | | by apply elem_of_nil in Hin ];
    destruct r as [|r], c as [|[|c]]; try (split; lia);
    exfalso; vm_compute in Hfg; congruence.
Qed.

Lemma combine_masks_last_cover_witness :
  ∃ out, combine_masks [wide_mask; small_mask; right_mask] = Ok out ∧
    px out 0 0 = 2 ∧ px out 0 1 = 3.
Proof.
  destruct (combine_masks_last_cover wide_mask [small_mask; right_mask])
    as (out & Hout & _ & Hlast & _).
  - vm_compute. discriminate.
  - apply Forall_forall. intros m Hm. apply fits_wide_row.
    rewrite !elem_of_cons in *. tauto.
  - exists out. split; [exact Hout|]. split.
    + apply (Hlast 1%nat small_mask); [reflexivity|vm_compute; reflexivity|].
      intros [|[|[|j]]] mj Hj Hlt; try lia; simplify_eq/=.
      vm_compute. discriminate.
    + apply (Hlast 2%nat right_mask); [reflexivity|vm_compute; reflexivity|].
      intros [|[|[|j]]] mj Hj Hlt; try lia; simplify_eq/=.
Defined.

Lemma combine_masks_union_witness :
  ∃ out, combine_masks [wide_mask; small_mask; right_mask] = Ok out ∧
    px out 0 1 ≠ 0 ∧ 0 ≤ px out 0 0 ≤ 3.
Proof.
  destruct (combine_masks_union wide_mask [small_mask; right_mask])
    as (out & Hout & Hunion & Hrange).
  - vm_compute. discriminate.
  - apply Forall_forall. intros m Hm. apply fits_wide_row.
    rewrite !elem_of_cons in *. tauto.
  - exists out. split; [exact Hout|]. split; [|apply Hrange].
    apply Hunion. exists wide_mask. split; [by left|].
    vm_compute. reflexivity.
Defined.

Lemma combine_masks_outside_first_shape_witness :
  combine_masks [left_mask; tall_mask] = Raise IndexError.
Proof.
  apply (combine_masks_outside_first_shape left_mask [tall_mask] tall_mask
           1 1).
  - vm_compute. discriminate.
  - right. left.
  - vm_compute. reflexivity.
  - vm_compute. lia.
Defined.

Lemma combine_masks_covered_mask_vanishes_witness :
  ∃ out, combine_masks [right_mask; wide_mask] = Ok out ∧
    ∀ r c, px out r c ≠ 1.
Proof.
  destruct (combine_masks_covered_mask_vanishes right_mask [wide_mask]
              0 right_mask) as (out & Hout & Hgone).
  - vm_compute. discriminate.
  - apply Forall_forall. intros m Hm. apply fits_wide_row.
    rewrite !elem_of_cons in *. tauto.
  - reflexivity.
  - intros r c Hfg. exists 1%nat, wide_mask.
    split; [lia|]. split; [reflexivity|].
    destruct r as [|r], c as [|[|c]]; try (vm_compute; reflexivity);
      exfalso; vm_compute in Hfg; congruence.
  - exists out. split; [exact Hout|]. exact Hgone.
Defined.

Lemma combine_masks_uint16_witness : 0 ≤ px [[1; 2]] 0 1 ≤ 65535.
Proof.
  apply (combine_masks_uint16 [left_mask; right_mask] [[1; 2]]).
  vm_compute. reflexivity.
Defined.

Lemma combine_masks_sign_only_witness :
  ∃ out, combine_masks [left_mask; right_mask] = Ok out ∧
         combine_masks [dim_mask; right_mask] = Ok out.
Proof.
  apply (combine_masks_sign_only left_mask dim_mask [right_mask] [right_mask]).
  - vm_compute. discriminate.
  - reflexivity.
  - apply Forall_forall. intros m Hm. apply fits_wide_row.
    rewrite !elem_of_cons in *. tauto.
  - constructor; [|constructor; [|constructor]];
      intros r c; destruct r as [|r], c as [|[|c]]; vm_compute; tauto.
Defined.

Section FurtherExamples.
Import TreeFS.

Lemma load_mask_images_accounts_witness :
  ∃ images extra,
    load_mask_images "in/S1/B" (World two_class_tree [])
      = (Ok images, World two_class_tree extra) ∧
    (length images + length extra = 2)%nat.
Proof.
  destruct (load_mask_images_accounts "in/S1/B" ["b.png"; "notes.txt"]
              (World two_class_tree []))
    as (images & extra & Hrun & Hcount & _).
  - vm_compute. reflexivity.
  - exists images, extra. split; [exact Hrun|exact Hcount].
Defined.

Lemma load_mask_images_reads_only_witness :
  w_fs (run (load_mask_images "in/absent") two_class_tree).2 = two_class_tree.
Proof.
  apply (load_mask_images_reads_only "in/absent" (World two_class_tree [])
           (run (load_mask_images "in/absent") two_class_tree).2
           (run (load_mask_images "in/absent") two_class_tree).1).
  vm_compute. reflexivity.
Defined.

Lemma copy_corresponding_files_stops_witness :
  let r := run (copy_corresponding_files "raw" "dst" "S1") copy_failure_tree in
  r.1 = Raise IsADirectoryError ∧
  listdir (w_fs r.2) "dst" = Ok ["S1.tif"] ∧
  w_log r.2 = [(INFO, "Copied corresponding file: S1.tif")].
Proof.
  pose proof (copy_corresponding_files_stops "raw" "dst" "S1"
                ["S1.tif"] ["S1_notes.txt"] "S1_extra" IsADirectoryError
                (World copy_failure_tree [])
                (run (copy_files "raw" "dst" ["S1.tif"]) copy_failure_tree).2
                (w_fs (run (copy_files "raw" "dst" ["S1.tif"])
                         copy_failure_tree).2)) as Hrun.
  unfold run. rewrite Hrun.
  - vm_compute. repeat split.
  - vm_compute. reflexivity.
  - vm_compute. reflexivity.
  - vm_compute. reflexivity.
  - vm_compute. reflexivity.
Defined.

Lemma split_data_keys_witness :
  ∃ data,
    split_data "in" "ST_I06" "ST_K07" (World split_tree [])
      = (Ok data, World split_tree []) ∧
    NoDup data.*1 ∧ head data.*1 = Some "valid" ∧ "valid" ∈ data.*1.
Proof.
  destruct (split_data_keys "in" "ST_I06" "ST_K07"
              ["plate_ST_I06"; "plate_ST_K07"; "plate_A01"; "ST_K07_ST_I06"]
              (World split_tree []))
    as (data & Hrun & Hnodup & Hkeys & _ & Hhead).
  - vm_compute. reflexivity.
  - exists data. split; [exact Hrun|]. split; [exact Hnodup|].
    split; [exact Hhead|]. apply Hkeys. exists "plate_ST_I06".
    split; [by left|]. vm_compute. reflexivity.
Defined.

Lemma split_data_empty_pattern_witness :
  ∃ data,
    split_data "in" "" "ST_K07" (World split_tree [])
      = (Ok data, World split_tree []) ∧
    dict_get "valid" data
      = ["in/plate_ST_I06"; "in/plate_ST_K07"; "in/plate_A01";
         "in/ST_K07_ST_I06"] ∧
    dict_get "test" data = [] ∧ dict_get "train" data = [].
Proof.
  destruct (split_data_empty_pattern "in" "" "ST_K07"
              ["plate_ST_I06"; "plate_ST_K07"; "plate_A01"; "ST_K07_ST_I06"]
              (World split_tree []))
    as (data & Hrun & Hvalid & _).
  - vm_compute. reflexivity.
  - exists data. split; [exact Hrun|]. apply Hvalid. reflexivity.
Defined.

Lemma split_data_basenames_witness :
  ∃ data,
    split_data "in" "ST_I06" "ST_K07" (World split_tree [])
      = (Ok data, World split_tree []) ∧
    basename <$> dict_get "valid" data = ["plate_ST_I06"; "ST_K07_ST_I06"].
Proof.
  destruct (split_data_basenames "in" "ST_I06" "ST_K07"
              ["plate_ST_I06"; "plate_ST_K07"; "plate_A01"; "ST_K07_ST_I06"]
              (World split_tree []))
    as (data & Hrun & Hbase).
  - vm_compute. reflexivity.
  - repeat constructor.
  - exists data. split; [exact Hrun|]. rewrite Hbase.
    vm_compute. reflexivity.
Defined.

Lemma process_masks_nothing_to_do_witness :
  prepare empty_root_tree = (Ok (), World empty_root_tree []).
Proof.
  apply (process_masks_nothing_to_do "in" "out" "raw" "ST_I06" "ST_K07"
           "png" default_exclude_class (World empty_root_tree [])).
  - vm_compute. reflexivity.
  - vm_compute. reflexivity.
Defined.

Lemma process_masks_class_without_masks_witness :
  let r := prepare empty_class_tree in
  r.1 = Raise IndexError ∧
  listdir (w_fs r.2) "out/png" = Ok ["all"] ∧
  listdir (w_fs r.2) "out/png/all/train" = Ok [].
Proof.
  pose proof (process_masks_class_without_masks "in" "out" "raw"
                "ST_I06" "ST_K07" "png" default_exclude_class
                "S1" ["S2"] ["Unidentified"] ["B"] ["readme.txt"] "A"
                (World empty_class_tree [])
                (run (create_directory "out/png/all/train")
                   empty_class_tree).2) as Hrun.
  unfold prepare, run. rewrite Hrun.
  - vm_compute. repeat split.
  - vm_compute. reflexivity.
  - vm_compute. reflexivity.
  - vm_compute. reflexivity.
  - vm_compute. reflexivity.
  - repeat constructor.
  - unfold default_exclude_class. rewrite list_elem_of_singleton. discriminate.
  - vm_compute. reflexivity.
  - repeat constructor.
Defined.

Lemma process_masks_unlistable_sample_witness :
  let r := prepare stray_file_tree in
  r.1 = Raise NotADirectoryError ∧
  listdir (w_fs r.2) "out/png" = Ok ["all"] ∧
  listdir (w_fs r.2) "out/png/all/train" = Ok [].
Proof.
  pose proof (process_masks_unlistable_sample "in" "out" "raw"
                "ST_I06" "ST_K07" "png" default_exclude_class
                "notes.txt" ["S1"] NotADirectoryError
                (World stray_file_tree [])
                (run (create_directory "out/png/all/train")
                   stray_file_tree).2) as Hrun.
  unfold prepare, run. rewrite Hrun.
  - vm_compute. repeat split.
  - vm_compute. reflexivity.
  - vm_compute. reflexivity.
  - vm_compute. reflexivity.
  - vm_compute. reflexivity.
Defined.

Lemma process_masks_log_witness :
  ∃ extra, w_log (prepare scenario_tree).2 = extra ∧
    Forall (λ rec, rec.1 = INFO ∨ rec.1 = WARNING) extra.
Proof.
  destruct (process_masks_log "in" "out" "raw" "ST_I06" "ST_K07" "png"
              default_exclude_class (World scenario_tree [])
              (prepare scenario_tree).2 (prepare scenario_tree).1)
    as (extra & Hlog & Hquiet & _).
  - vm_compute. reflexivity.
  - exists extra. split; [exact Hlog|]. apply Hquiet.
    vm_compute. reflexivity.
Defined.

Lemma sample_step_reuses_masks_witness :
  let r := run (sample_step "out" "raw" "png" default_exclude_class "train"
                  (Some [left_mask]) "in/S2") stale_tree in
  r.1 = Ok (Some [left_mask]) ∧
  stat (w_fs r.2) "out/png/all/train/S2_masks.png"
    = Ok (File (Gray16 [[1; 0]])).
Proof.
  pose proof (sample_step_reuses_masks "out" "raw" "png"
                default_exclude_class "train" "in/S2" [left_mask] [[1; 0]]
                [] true (World stale_tree [])
                (run (create_directory "out/png/all/train") stale_tree).2
                (run (sample_step "out" "raw" "png" default_exclude_class
                        "train" (Some [left_mask]) "in/S2") stale_tree).2
                (w_fs (run (sample_step "out" "raw" "png"
                              default_exclude_class "train"
                              (Some [left_mask]) "in/S2") stale_tree).2))
    as Hrun.
  intros r. unfold r, run in *. rewrite Hrun.
  - vm_compute. repeat split.
  - vm_compute. reflexivity.
  - vm_compute. reflexivity.
  - constructor.
  - vm_compute. reflexivity.
  - vm_compute. reflexivity.
  - vm_compute. reflexivity.
Defined.

End FurtherExamples.
